(** * A shallow embedding of the user filestore client

    The client ([FBUserfilestoreClient], the args-object version of
    [fb-user-filestore-client.js]) is a thin layer over a JWT base client:
    it checks nothing itself at construction besides filling two defaults,
    shapes the payload of [store] (base64 of the file, policy defaults),
    decodes the payload of [fetch], and post-checks the transport result.

    The file is organised in two parts.  Part I holds the embedding: the
    JavaScript values the client touches, the platform functions it calls
    ([Buffer.from], [buf.toString]), and the four methods.  Part II holds
    the properties proved about them. *)

From stdpp Require Import gmap strings list fin_maps.
From Stdlib Require Import ZArith Lia Strings.Byte Ascii.

#[local] Set Warnings "-register-all".
#[local] Open Scope Z_scope.

(* ===================================================================== *)
(** * Part I -- the embedding                                             *)
(* ===================================================================== *)

(** ** Bytes and UTF-16 code units *)

(** A [Buffer] is a sequence of bytes.  A JavaScript string is a sequence
    of 16-bit code units; a unit is kept as a [Z] and [is_string] says
    that every unit is in range. *)

Abbreviation jsstring := (list Z).

Definition byte_to_Z (b : byte) : Z := Z.of_N (Byte.to_N b).

Definition byte_of_Z (z : Z) : byte :=
  match Byte.of_N (Z.to_N (z mod 256)) with
  | Some b => b
  | None => "000"%byte
  end.

Definition is_unit (u : Z) : bool := (0 <=? u) && (u <? 65536).

Definition is_string (s : jsstring) : bool := forallb is_unit s.

(** The code units of an ASCII literal. *)
Definition js (s : string) : jsstring :=
  map (fun a => Z.of_N (N_of_ascii a)) (String.list_ascii_of_string s).

(** ** Base64, as [buf.toString('base64')] and [Buffer.from(s, 'base64')] *)

Module Base64.

Definition table : jsstring :=
  js "ABCDEFGHIJKLMNOPQRSTUVWXYZabcdefghijklmnopqrstuvwxyz0123456789+/".

Definition pad : Z := 61.

(** [table[i]] *)
Definition char (i : Z) : Z := nth (Z.to_nat i) table 0.

(** The encoder walks the bytes three at a time and pads the last group. *)
Fixpoint encode (src : list byte) : jsstring :=
  match src with
  | [] => []
  | [x] =>
      let a := byte_to_Z x in
      [ char (Z.shiftr a 2);
        char (Z.shiftl (Z.land a 3) 4);
        pad; pad ]
  | [x; y] =>
      let a := byte_to_Z x in
      let b := byte_to_Z y in
      [ char (Z.shiftr a 2);
        char (Z.lor (Z.shiftl (Z.land a 3) 4) (Z.shiftr b 4));
        char (Z.shiftl (Z.land b 15) 2);
        pad ]
  | x :: y :: z :: rest =>
      let a := byte_to_Z x in
      let b := byte_to_Z y in
      let c := byte_to_Z z in
      char (Z.shiftr a 2)
      :: char (Z.lor (Z.shiftl (Z.land a 3) 4) (Z.shiftr b 4))
      :: char (Z.lor (Z.shiftl (Z.land b 15) 2) (Z.shiftr c 6))
      :: char (Z.land c 63)
      :: encode rest
  end.

(** The decoder reads the low byte of a code unit. *)
Definition low_byte (u : Z) : Z := Z.land u 255.

(** The decoding table: both the standard and the URL-safe alphabet are
    accepted; every other byte has no value. *)
Definition unbase64 (u : Z) : option Z :=
  let c := low_byte u in
  if (65 <=? c) && (c <=? 90) then Some (c - 65)
  else if (97 <=? c) && (c <=? 122) then Some (c - 71)
  else if (48 <=? c) && (c <=? 57) then Some (c + 4)
  else if (c =? 43) || (c =? 45) then Some 62
  else if (c =? 47) || (c =? 95) then Some 63
  else None.

(** The decoder skips units that have no value and stops at the first
    padding character. *)
Fixpoint sextets (s : jsstring) : list Z :=
  match s with
  | [] => []
  | u :: rest =>
      match unbase64 u with
      | Some v => v :: sextets rest
      | None => if low_byte u =? pad then [] else sextets rest
      end
  end.

Definition byte1 (hi lo : Z) : byte :=
  byte_of_Z (Z.lor (Z.shiftl (Z.land hi 63) 2) (Z.shiftr (Z.land lo 48) 4)).
Definition byte2 (hi lo : Z) : byte :=
  byte_of_Z (Z.lor (Z.shiftl (Z.land hi 15) 4) (Z.shiftr (Z.land lo 60) 2)).
Definition byte3 (hi lo : Z) : byte :=
  byte_of_Z (Z.lor (Z.shiftl (Z.land hi 3) 6) (Z.land lo 63)).

(** Four sextets give three bytes; a trailing group of two gives one
    byte, of three gives two, and a single trailing sextet gives none. *)
Fixpoint group (l : list Z) : list byte :=
  match l with
  | s1 :: s2 :: s3 :: s4 :: rest =>
      byte1 s1 s2 :: byte2 s2 s3 :: byte3 s3 s4 :: group rest
  | [s1; s2; s3] => [byte1 s1 s2; byte2 s2 s3]
  | [s1; s2] => [byte1 s1 s2]
  | _ => []
  end.

Definition decode (s : jsstring) : list byte := group (sextets s).

End Base64.

(** ** UTF-8, as [Buffer.from(s)] and [buf.toString()] *)

Module Utf8.

Definition replacement : Z := 0xFFFD.

Definition is_high_surrogate (u : Z) : bool := (0xD800 <=? u) && (u <=? 0xDBFF).
Definition is_low_surrogate (u : Z) : bool := (0xDC00 <=? u) && (u <=? 0xDFFF).

(** The code point of a surrogate pair. *)
Definition combine (hi lo : Z) : Z :=
  0x10000 + Z.lor (Z.shiftl (Z.land hi 0x3FF) 10) (Z.land lo 0x3FF).

(** The one to four bytes of a code point. *)
Definition encode_cp (cp : Z) : list byte :=
  if cp <? 0x80 then
    [ byte_of_Z cp ]
  else if cp <? 0x800 then
    [ byte_of_Z (Z.lor 0xC0 (Z.shiftr cp 6));
      byte_of_Z (Z.lor 0x80 (Z.land cp 0x3F)) ]
  else if cp <? 0x10000 then
    [ byte_of_Z (Z.lor 0xE0 (Z.shiftr cp 12));
      byte_of_Z (Z.lor 0x80 (Z.land (Z.shiftr cp 6) 0x3F));
      byte_of_Z (Z.lor 0x80 (Z.land cp 0x3F)) ]
  else
    [ byte_of_Z (Z.lor 0xF0 (Z.shiftr cp 18));
      byte_of_Z (Z.lor 0x80 (Z.land (Z.shiftr cp 12) 0x3F));
      byte_of_Z (Z.lor 0x80 (Z.land (Z.shiftr cp 6) 0x3F));
      byte_of_Z (Z.lor 0x80 (Z.land cp 0x3F)) ].

(** Writing a string as UTF-8: a high surrogate followed by a low one is
    one code point; a surrogate on its own is written as U+FFFD. *)
Fixpoint encode (s : jsstring) : list byte :=
  match s with
  | [] => []
  | u :: rest =>
      if is_high_surrogate u then
        match rest with
        | v :: rest' =>
            if is_low_surrogate v
            then encode_cp (combine u v) ++ encode rest'
            else encode_cp replacement ++ encode rest
        | [] => encode_cp replacement
        end
      else if is_low_surrogate u then encode_cp replacement ++ encode rest
      else encode_cp u ++ encode rest
  end.

(** The code units of a code point. *)
Definition units (cp : Z) : jsstring :=
  if cp <? 0x10000 then [ cp ]
  else
    let c := cp - 0x10000 in
    [ 0xD800 + Z.shiftr c 10; 0xDC00 + Z.land c 0x3FF ].

(** The decoder is the byte-at-a-time machine of the Encoding standard.
    Between sequences it is in [Start]; inside one it remembers the code
    point read so far, how many continuation bytes are still to come
    after the next one, and the bounds the next byte has to respect. *)
Inductive state : Type :=
| Start
| Pending (cp : Z) (more : nat) (lower upper : Z).

Definition lead (x : Z) : jsstring * state :=
  if x <=? 0x7F then ([ x ], Start)
  else if (0xC2 <=? x) && (x <=? 0xDF) then
    ([], Pending (Z.land x 0x1F) 0 0x80 0xBF)
  else if (0xE0 <=? x) && (x <=? 0xEF) then
    ([], Pending (Z.land x 0xF) 1
           (if x =? 0xE0 then 0xA0 else 0x80)
           (if x =? 0xED then 0x9F else 0xBF))
  else if (0xF0 <=? x) && (x <=? 0xF4) then
    ([], Pending (Z.land x 0x7) 2
           (if x =? 0xF0 then 0x90 else 0x80)
           (if x =? 0xF4 then 0x8F else 0xBF))
  else ([ replacement ], Start).

(** One byte.  A byte that does not continue the pending sequence ends
    it with U+FFFD and is then read again as the start of a sequence. *)
Definition step (st : state) (x : Z) : jsstring * state :=
  match st with
  | Start => lead x
  | Pending cp more lower upper =>
      if (lower <=? x) && (x <=? upper) then
        let cp' := Z.lor (Z.shiftl cp 6) (Z.land x 0x3F) in
        match more with
        | O => (units cp', Start)
        | S more' => ([], Pending cp' more' 0x80 0xBF)
        end
      else
        let '(out, st') := lead x in (replacement :: out, st')
  end.

(** End of input inside a sequence gives a last U+FFFD. *)
Definition flush (st : state) : jsstring :=
  match st with
  | Start => []
  | Pending _ _ _ _ => [ replacement ]
  end.

Fixpoint run (st : state) (bs : list byte) : jsstring :=
  match bs with
  | [] => flush st
  | b :: rest =>
      let '(out, st') := step st (byte_to_Z b) in
      out ++ run st' rest
  end.

Definition decode (bs : list byte) : jsstring := run Start bs.

(** Strings that UTF-8 can carry: every unit in range and every
    surrogate part of a pair. *)
Fixpoint well_formed (s : jsstring) : bool :=
  match s with
  | [] => true
  | u :: rest =>
      if is_high_surrogate u then
        match rest with
        | v :: rest' => is_low_surrogate v && well_formed rest'
        | [] => false
        end
      else is_unit u && negb (is_low_surrogate u) && well_formed rest
  end.

(** Well-formed byte sequences, by the table of RFC 3629. *)
Definition tail (x : Z) : bool := (0x80 <=? x) && (x <=? 0xBF).

Definition second3 (x1 x2 : Z) : bool :=
  if x1 =? 0xE0 then (0xA0 <=? x2) && (x2 <=? 0xBF)
  else if x1 =? 0xED then (0x80 <=? x2) && (x2 <=? 0x9F)
  else tail x2.

Definition second4 (x1 x2 : Z) : bool :=
  if x1 =? 0xF0 then (0x90 <=? x2) && (x2 <=? 0xBF)
  else if x1 =? 0xF4 then (0x80 <=? x2) && (x2 <=? 0x8F)
  else tail x2.

Fixpoint valid (bs : list byte) : bool :=
  match bs with
  | [] => true
  | b1 :: r1 =>
      let x1 := byte_to_Z b1 in
      if x1 <=? 0x7F then valid r1
      else
        match r1 with
        | [] => false
        | b2 :: r2 =>
            let x2 := byte_to_Z b2 in
            if (0xC2 <=? x1) && (x1 <=? 0xDF) then tail x2 && valid r2
            else
              match r2 with
              | [] => false
              | b3 :: r3 =>
                  let x3 := byte_to_Z b3 in
                  if (0xE0 <=? x1) && (x1 <=? 0xEF) then
                    second3 x1 x2 && tail x3 && valid r3
                  else
                    match r3 with
                    | [] => false
                    | b4 :: r4 =>
                        let x4 := byte_to_Z b4 in
                        (0xF0 <=? x1) && (x1 <=? 0xF4) && second4 x1 x2
                        && tail x3 && tail x4 && valid r4
                    end
              end
        end
  end.

(** Code points that have an encoding: the scalar values. *)
Definition scalar (cp : Z) : Prop :=
  0 <= cp < 0x110000 /\ ~ (0xD800 <= cp <= 0xDFFF).

(** What holds of the machine between two bytes: the bytes still to come
    cannot take the code point beyond U+10FFFF. *)
Definition state_ok (st : state) : Prop :=
  match st with
  | Start => True
  | Pending cp more lower upper =>
      (more <= 2)%nat /\ 0 <= cp /\ 0x80 <= lower /\ upper <= 0xBF
      /\ (cp * 64 + upper - 0x80 + 1) * 64 ^ Z.of_nat more <= 0x110000
  end.

End Utf8.

(** Bytes of an ASCII literal. *)
Definition bytes (s : string) : list byte := map byte_of_Z (js s).

(** ** JavaScript values *)

(** The values the client handles: primitives, Buffers, arrays and plain
    objects.  Numbers are the integral ones, with [VNaN] beside them; an
    object is the finite map of its own properties, without the order in
    which they were added. *)
Inductive value : Type :=
| VUndefined
| VNull
| VBool (b : bool)
| VNum (n : Z)
| VNaN
| VStr (s : jsstring)
| VBuf (b : list byte)
| VArr (xs : list value)
| VObj (props : gmap string value).

(** ToBoolean *)
Definition truthy (v : value) : bool :=
  match v with
  | VUndefined | VNull | VNaN => false
  | VBool b => b
  | VNum n => negb (n =? 0)
  | VStr s => match s with [] => false | _ => true end
  | VBuf _ | VArr _ | VObj _ => true
  end.

(** [a || b] *)
Definition or_else (a b : value) : value := if truthy a then a else b.

(** What the code can raise: a [TypeError] of the language, an instance of
    the client's error class, or whatever a collaborator rejects with. *)
Inductive error : Type :=
| TypeError
| ClientError (name : string) (code : value) (message : string)
| Foreign (v : value).

(** A call returns or throws. *)
Inductive completion (A : Type) : Type :=
| Return (a : A)
| Throw (e : error).
Arguments Return {A} a.
Arguments Throw {A} e.

Definition bind {A B} (c : completion A) (k : A -> completion B) : completion B :=
  match c with
  | Return a => k a
  | Throw e => Throw e
  end.

Notation "x <- c ;; k" := (bind c (fun x => k))
  (at level 100, c at next level, right associativity).
Notation "c ;;; k" := (bind c (fun _ => k))
  (at level 100, k at level 200, right associativity).

(** A promise, seen when the event loop has run: fulfilled, rejected, or
    never settled. *)
Inductive promise (A : Type) : Type :=
| Fulfilled (a : A)
| Rejected (e : error)
| Pending.
Arguments Fulfilled {A} a.
Arguments Rejected {A} e.
Arguments Pending {A}.

(** [p.then(cb)] for a callback that returns a plain value or throws. *)
Definition then_ {A B} (p : promise A) (cb : A -> completion B) : promise B :=
  match p with
  | Fulfilled a =>
      match cb a with
      | Return b => Fulfilled b
      | Throw e => Rejected e
      end
  | Rejected e => Rejected e
  | Pending => Pending
  end.

(** [o.k] for an own data property of a plain object. *)
Definition own (o : gmap string value) (k : string) : value :=
  default VUndefined (o !! k).

(** [v.k] where [k] is one of the data fields the client reads from a
    response ([file], [fingerprint]): reading from [undefined] or [null]
    throws, a plain object gives its own property, and nothing else in
    [value] (nor a prototype) defines such a field. *)
Definition field (v : value) (k : string) : completion value :=
  match v with
  | VUndefined | VNull => Throw TypeError
  | VObj o => Return (own o k)
  | _ => Return VUndefined
  end.

(** [v && v.length === 0]: a truthy value whose length is the number 0.
    A truthy string is not empty, and numbers and [true] have no length. *)
Definition empty_sequence (v : value) : bool :=
  match v with
  | VArr xs => match xs with [] => true | _ => false end
  | VBuf b => match b with [] => true | _ => false end
  | VObj o => match own o "length" with VNum 0 => true | _ => false end
  | _ => false
  end.

(** [Object.assign({}, source)] for a source that is a plain object or
    [undefined]. *)
Definition Object_assign (target : gmap string value)
    (source : option (gmap string value)) : gmap string value :=
  match source with
  | Some o => o ∪ target
  | None => target
  end.

(** ** The client *)

Record client : Type := {
  serviceSecret : value;
  serviceToken : value;
  serviceSlug : value;
  serviceUrl : value;
  maxSize : value;
  expires : value
}.

(** [args.file] is a string or a Buffer. *)
Inductive file_content : Type :=
| FileString (s : jsstring)
| FileBuffer (b : list byte).

(** The args object of [fetch], [store] and [storeFromPath]; a field that
    the caller leaves out is [undefined] ([None] for [file] and [policy]). *)
Record args : Type := {
  userId : value;
  userToken : value;
  fingerprint : value;
  file : option file_content;
  policy : option (gmap string value)
}.

(** What the transport is handed: [{url, context, payload}]. *)
Record request : Type := {
  url : string;
  context : gmap string value;
  payload : gmap string value
}.

Definition errorClass : string := "FBUserFileStoreClientError".

(** Modelled from the spec: [throwRequestError] of the base client, which
    is not part of the sources; it raises the client's error type carrying
    the code and the message it is given. *)
Definition throwRequestError (code : value) (message : string) : completion unit :=
  Throw (ClientError errorClass code message).

(** An argument that was not passed. *)
Definition missing (v : value) : bool :=
  match v with
  | VUndefined => true
  | _ => false
  end.

(** Modelled from the spec: the constructor of the base client
    [FBJWTClient], which is not part of the sources.  It rejects a missing
    secret, token, slug and base URL, in this order, and otherwise stores
    the four values.  The messages are those the tests expect. *)
Definition FBJWTClient (serviceSecret serviceToken serviceSlug microserviceUrl : value)
    : completion (value * value * value * value) :=
  (if missing serviceSecret
   then throwRequestError (VStr (js "ENOSERVICESECRET")) "No service secret passed to client"
   else Return tt) ;;;
  (if missing serviceToken
   then throwRequestError (VStr (js "ENOSERVICETOKEN")) "No service token passed to client"
   else Return tt) ;;;
  (if missing serviceSlug
   then throwRequestError (VStr (js "ENOSERVICESLUG")) "No service slug passed to client"
   else Return tt) ;;;
  (if missing microserviceUrl
   then throwRequestError (VStr (js "ENOMICROSERVICEURL")) "No microservice url passed to client"
   else Return tt) ;;;
  Return (serviceSecret, serviceToken, serviceSlug, microserviceUrl).

Definition endpoints_fetch : string := "/service/:serviceSlug/user/:userId/:fingerprint".
Definition endpoints_store : string := "/service/:serviceSlug/user/:userId".

Definition defaultMaxSize : value := VNum (10 * 1024 * 1024).
Definition defaultExpires : value := VNum 28.

(** [new FBUserfilestoreClient(secret, token, slug, url, options = {})] *)
Definition constructor (serviceSecret serviceToken serviceSlug userFileStoreUrl : value)
    (options : option (gmap string value)) : completion client :=
  base <- FBJWTClient serviceSecret serviceToken serviceSlug userFileStoreUrl ;;
  let '(secret, token, slug, url) := base in
  let options := default ∅ options in
  Return {| serviceSecret := secret;
            serviceToken := token;
            serviceSlug := slug;
            serviceUrl := url;
            maxSize := or_else (own options "maxSize") defaultMaxSize;
            expires := or_else (own options "expires") defaultExpires |}.

(** The file lines of [store]:
    [if (!file.buffer) { file = Buffer.from(file) }; file = file.toString('base64')].
    A Buffer has a [.buffer] and is written as it is; a string has none
    and is first turned into the Buffer of its UTF-8 bytes. *)
Definition store_file (f : file_content) : jsstring :=
  match f with
  | FileBuffer b => Base64.encode b
  | FileString s => Base64.encode (Utf8.encode s)
  end.

(** The policy lines of [store]. *)
Definition store_policy (this : client) (policy : option (gmap string value))
    : gmap string value :=
  let policy := Object_assign ∅ policy in
  let policy :=
    if negb (truthy (own policy "max_size"))
    then <["max_size" := maxSize this]> policy else policy in
  let policy :=
    if negb (truthy (own policy "expires"))
    then <["expires" := expires this]> policy else policy in
  if empty_sequence (own policy "allowed_types")
  then delete "allowed_types" policy else policy.

(** [Buffer.from(v, 'base64')]: a string is decoded, a Buffer is copied, a
    number, a boolean, [undefined] and [null] are refused.  What the
    platform makes of arrays and objects is left to [from_object]. *)
Definition Buffer_from_base64 (from_object : value -> completion (list byte))
    (v : value) : completion (list byte) :=
  match v with
  | VStr s => Return (Base64.decode s)
  | VBuf b => Return b
  | VArr _ | VObj _ => from_object v
  | VUndefined | VNull | VBool _ | VNum _ | VNaN => Throw TypeError
  end.

Section Client.

(** The collaborators: the encryption and the two transport calls of the
    base client, [fs.readFile], and the array-like case of [Buffer.from]. *)
Variable encryptUserIdAndToken : value -> value -> value.
Variable sendGet : request -> value -> promise value.
Variable sendPost : request -> value -> promise value.
Variable readFile : value -> promise (list byte).
Variable from_object : value -> completion (list byte).

Definition fetch_request (this : client) (a : args) : request :=
  let encrypted_user_id_and_token :=
    encryptUserIdAndToken (userId a) (userToken a) in
  {| url := endpoints_fetch;
     context := {[ "serviceSlug" := serviceSlug this;
                   "userId" := userId a;
                   "fingerprint" := fingerprint a ]};
     payload := {[ "encrypted_user_id_and_token" := encrypted_user_id_and_token ]} |}.

Definition fetch (this : client) (a : args) (logger : value) : promise value :=
  then_ (sendGet (fetch_request this a) logger)
    (fun json =>
       file <- field json "file" ;;
       buf <- Buffer_from_base64 from_object file ;;
       Return (VStr (Utf8.decode buf))).

(** Everything [store] does before it calls the transport.  Reading
    [.buffer] of a file that was not given throws. *)
Definition store_request (this : client) (a : args) : completion request :=
  match file a with
  | None => Throw TypeError
  | Some f =>
      let file := store_file f in
      let policy := store_policy this (policy a) in
      let encrypted_user_id_and_token :=
        encryptUserIdAndToken (userId a) (userToken a) in
      Return {| url := endpoints_store;
                context := {[ "serviceSlug" := serviceSlug this;
                              "userId" := userId a ]};
                payload := {[ "encrypted_user_id_and_token" := encrypted_user_id_and_token;
                              "file" := VStr file;
                              "policy" := VObj policy ]} |}
  end.

(** The callback of [store]: useless if no fingerprint returned. *)
Definition store_check (result : value) : completion value :=
  fp <- field result "fingerprint" ;;
  (if negb (truthy fp)
   then throwRequestError (VNum 500) "ENOFINGERPRINT"
   else Return tt) ;;;
  Return result.

Definition store (this : client) (a : args) (logger : value)
    : completion (promise value) :=
  req <- store_request this a ;;
  Return (then_ (sendPost req logger) store_check).

(** [args.file = file] *)
Definition set_file (a : args) (f : file_content) : args :=
  {| userId := userId a;
     userToken := userToken a;
     fingerprint := fingerprint a;
     file := Some f;
     policy := policy a |}.

(** The callback of [storeFromPath] is a block: it calls [store] and
    returns nothing. *)
Definition storeFromPath (this : client) (filePath : value) (a : args) (logger : value)
    : promise value :=
  then_ (readFile filePath)
    (fun file =>
       let a := set_file a (FileBuffer file) in
       store this a logger ;;;
       Return VUndefined).

End Client.

(** ** Reading a request, and sample collaborators *)

(** The policy a request carries to the transport. *)
Definition outgoing_policy (req : request) : option (gmap string value) :=
  match payload req !! "policy" with
  | Some (VObj p) => Some p
  | _ => None
  end.

(** The policy object the caller supplied, empty when there is none. *)
Definition supplied (a : args) : gmap string value := default ∅ (policy a).

Definition set_policy (a : args) (p : option (gmap string value)) : args :=
  {| userId := userId a;
     userToken := userToken a;
     fingerprint := fingerprint a;
     file := file a;
     policy := p |}.

(** [Buffer.from(s).toString('base64')] *)
Definition base64 (s : jsstring) : jsstring := Base64.encode (Utf8.encode s).

(** Stand-ins for the collaborators, in the manner of the test suite. *)
Definition sample_encrypt (userId userToken : value) : value :=
  VObj {[ "payload" := VStr (js "mock payload") ]}.

Definition reply (v : value) (req : request) (logger : value) : promise value :=
  Fulfilled v.

Definition sample_readFile (content : list byte) (filePath : value)
    : promise (list byte) :=
  Fulfilled content.

Definition no_array_like (v : value) : completion (list byte) := Throw TypeError.

Definition sample_logger : value := VObj ∅.

Definition sample_client : client :=
  {| serviceSecret := VStr (js "testServiceSecret");
     serviceToken := VStr (js "testServiceToken");
     serviceSlug := VStr (js "testServiceSlug");
     serviceUrl := VStr (js "http://localhost:8080");
     maxSize := defaultMaxSize;
     expires := defaultExpires |}.

(** [{userId: "u", userToken: "t", fingerprint: "f"}] *)
Definition sample_fetch_args : args :=
  {| userId := VStr (js "u");
     userToken := VStr (js "t");
     fingerprint := VStr (js "f");
     file := None;
     policy := None |}.

(** [{userId: "u", userToken: "t", file: "hello", policy: {}}] *)
Definition sample_store_args : args :=
  {| userId := VStr (js "u");
     userToken := VStr (js "t");
     fingerprint := VUndefined;
     file := Some (FileString (js "hello"));
     policy := Some ∅ |}.

(** [{userId: "u", userToken: "t", policy: {}}], for [storeFromPath] *)
Definition sample_path_args : args :=
  {| userId := VStr (js "u");
     userToken := VStr (js "t");
     fingerprint := VUndefined;
     file := None;
     policy := Some ∅ |}.

Definition with_fingerprint : gmap string value :=
  {[ "fingerprint" := VStr (js "fp1") ]}.

(** ** The positional version of the client *)

(** [p.then(cb)] for a callback that returns a promise: the promise of
    [then] follows it. *)
Definition then_promise {A B} (p : promise A) (cb : A -> completion (promise B))
    : promise B :=
  match p with
  | Fulfilled a =>
      match cb a with
      | Return q => q
      | Throw e => Rejected e
      end
  | Rejected e => Rejected e
  | Pending => Pending
  end.

(** The earlier version of [fb-user-filestore-client.js] takes its
    arguments one by one and calls the transport with the URL pattern, the
    context and the payload as three arguments. *)
Module Positional.

Definition defaultExpires : value := VStr (js "28d").

Definition constructor (serviceSecret serviceToken serviceSlug userFileStoreUrl : value)
    (options : option (gmap string value)) : completion client :=
  base <- FBJWTClient serviceSecret serviceToken serviceSlug userFileStoreUrl ;;
  let '(secret, token, slug, url) := base in
  let options := default ∅ options in
  Return {| serviceSecret := secret;
            serviceToken := token;
            serviceSlug := slug;
            serviceUrl := url;
            maxSize := or_else (own options "maxSize") defaultMaxSize;
            expires := or_else (own options "expires") defaultExpires |}.

Section Methods.

Variable encryptUserIdAndToken : value -> value -> value.
Variable sendGet :
  string -> gmap string value -> gmap string value -> value -> promise value.
Variable sendPost :
  string -> gmap string value -> gmap string value -> promise value.
Variable readFile : value -> promise (list byte).
Variable from_object : value -> completion (list byte).

Definition fetch (this : client) (userId userToken fingerprint : value)
    : promise value :=
  let urlPattern := endpoints_fetch in
  let encrypted_user_id_and_token := encryptUserIdAndToken userId userToken in
  then_ (sendGet urlPattern
           {[ "serviceSlug" := serviceSlug this;
              "userId" := userId;
              "fingerprint" := fingerprint ]}
           {[ "encrypted_user_id_and_token" := encrypted_user_id_and_token ]}
           (VBool true))
    (fun json =>
       file <- field json "file" ;;
       buf <- Buffer_from_base64 from_object file ;;
       Return (VStr (Utf8.decode buf))).

Definition store (this : client) (userId userToken : value)
    (file : option file_content) (policy : option (gmap string value))
    : completion (promise value) :=
  let urlPattern := endpoints_store in
  match file with
  | None => Throw TypeError
  | Some f =>
      let file := store_file f in
      let policy := store_policy this policy in
      let encrypted_user_id_and_token := encryptUserIdAndToken userId userToken in
      let data : gmap string value :=
        {[ "encrypted_user_id_and_token" := encrypted_user_id_and_token;
           "file" := VStr file;
           "policy" := VObj policy ]} in
      Return (then_ (sendPost urlPattern
                       {[ "serviceSlug" := serviceSlug this; "userId" := userId ]}
                       data)
                store_check)
  end.

(** [readFile(filePath).then(file => this.store(userId, userToken, file, policy))] *)
Definition storeFromPath (this : client) (userId userToken filePath : value)
    (policy : option (gmap string value)) : promise value :=
  then_promise (readFile filePath)
    (fun file => store this userId userToken (Some (FileBuffer file)) policy).

End Methods.

End Positional.

(** ** More stand-ins *)

(** A transport that fails, and one that never answers. *)
Definition refuse (e : error) (req : request) (logger : value) : promise value :=
  Rejected e.

Definition silent (req : request) (logger : value) : promise value := Pending.

(** What the transport rejects with on an HTTP status 401. *)
Definition unauthorized : error := ClientError errorClass (VNum 401) "401".

(** The three-argument transport that a request-taking one stands for. *)
Definition spread (send : request -> value -> promise value) (logger : value)
    (urlPattern : string) (context payload : gmap string value) : promise value :=
  send {| url := urlPattern; context := context; payload := payload |} logger.

Definition spread_get (send : request -> value -> promise value) (logger : value)
    (urlPattern : string) (context payload : gmap string value) (flag : value)
    : promise value :=
  send {| url := urlPattern; context := context; payload := payload |} logger.

(** Space, tab, line feed and carriage return. *)
Definition is_whitespace (u : Z) : bool :=
  (u =? 32) || (u =? 9) || (u =? 10) || (u =? 13).

(** The URL-safe spelling of a base64 character. *)
Definition url_safe (u : Z) : Z :=
  if u =? 43 then 45 else if u =? 47 then 95 else u.

(* ===================================================================== *)
(** * Part II -- properties                                               *)
(* ===================================================================== *)

(** ** Bytes and bit operations as arithmetic *)

Lemma byte_to_Z_range (b : byte) : 0 <= byte_to_Z b < 256.
Proof.
  unfold byte_to_Z. pose proof (Byte.to_N_bounded b). lia.
Qed.

Lemma byte_of_to_Z (b : byte) : byte_of_Z (byte_to_Z b) = b.
Proof.
  pose proof (byte_to_Z_range b) as Hr.
  unfold byte_of_Z. rewrite Z.mod_small by exact Hr.
  unfold byte_to_Z. rewrite N2Z.id, Byte.of_to_N. reflexivity.
Qed.

Lemma byte_to_of_Z (z : Z) : 0 <= z < 256 -> byte_to_Z (byte_of_Z z) = z.
Proof.
  intros Hz. unfold byte_of_Z. rewrite Z.mod_small by exact Hz.
  destruct (Byte.of_N (Z.to_N z)) as [b|] eqn:E.
  - apply Byte.to_of_N in E. unfold byte_to_Z. rewrite E. lia.
  - apply Byte.of_N_None_iff in E. lia.
Qed.

Lemma land_low (a n : Z) : 0 <= n -> Z.land a (2 ^ n - 1) = a mod 2 ^ n.
Proof.
  intros Hn. rewrite <- Z.land_ones by exact Hn.
  rewrite Z.ones_equiv, <- Z.sub_1_r. reflexivity.
Qed.

(** An [or] that only fills the low bits left free is a sum. *)
Lemma lor_low (c y n : Z) :
  0 <= n -> c mod 2 ^ n = 0 -> 0 <= y < 2 ^ n -> Z.lor c y = c + y.
Proof.
  intros Hn Hc Hy.
  assert (Hland : Z.land c y = 0).
  { apply Z.bits_inj'. intros i Hi.
    rewrite Z.land_spec, Z.bits_0.
    destruct (Z.lt_ge_cases i n) as [Hlt|Hge].
    - rewrite (Z.div_mod c (2 ^ n)) by lia.
      rewrite Hc, Z.add_0_r, Z.mul_comm, Z.mul_pow2_bits_low by lia.
      reflexivity.
    - rewrite <- (Z.mod_small y (2 ^ n)) by lia.
      rewrite Z.mod_pow2_bits_high by lia.
      apply andb_false_r. }
  pose proof (Z.add_lor_land c y). lia.
Qed.

(** A check over an initial segment of the integers, by enumeration. *)
Lemma Z_range_forall (P : Z -> bool) (n : nat) :
  forallb P (map Z.of_nat (seq 0 n)) = true ->
  forall z, 0 <= z < Z.of_nat n -> P z = true.
Proof.
  intros H z Hz. rewrite forallb_forall in H. apply H.
  apply in_map_iff. exists (Z.to_nat z). split; [lia|].
  apply in_seq. lia.
Qed.

(** Induction over a list three elements at a time. *)
Lemma list_ind3 {A} (P : list A -> Prop) :
  P [] -> (forall x, P [x]) -> (forall x y, P [x; y]) ->
  (forall x y z rest, P rest -> P (x :: y :: z :: rest)) ->
  forall l, P l.
Proof.
  intros H0 H1 H2 H3 l.
  assert (H : P l /\ (forall x, P (x :: l)) /\ (forall x y, P (x :: y :: l))).
  { induction l as [|a l (IH0 & IH1 & IH2)]; [now auto|].
    split; [apply IH1|]. split; [intros x; apply IH2|].
    intros x y. apply H3. exact IH0. }
  apply H.
Qed.

(** ** Base64: decoding undoes encoding *)

Lemma b64_unbase64_char (i : Z) :
  0 <= i < 64 -> Base64.unbase64 (Base64.char i) = Some i.
Proof.
  intros Hi.
  pose (P := fun i => match Base64.unbase64 (Base64.char i) with
                      | Some j => j =? i
                      | None => false
                      end).
  assert (HP : P i = true).
  { apply (Z_range_forall P 64); [vm_compute; reflexivity | lia]. }
  unfold P in HP. destruct (Base64.unbase64 (Base64.char i)) as [j|]; [|discriminate].
  apply Z.eqb_eq in HP. congruence.
Qed.

Lemma b64_sextets_char (i : Z) (rest : jsstring) :
  0 <= i < 64 ->
  Base64.sextets (Base64.char i :: rest) = i :: Base64.sextets rest.
Proof.
  intros Hi. cbn [Base64.sextets]. rewrite b64_unbase64_char by exact Hi. reflexivity.
Qed.

Lemma b64_sextets_pad (rest : jsstring) :
  Base64.sextets (Base64.pad :: rest) = [].
Proof. reflexivity. Qed.

(** The four sextets of a group are in range. *)
Lemma b64_sextet1_range (a : Z) : 0 <= a < 256 -> 0 <= Z.shiftr a 2 < 64.
Proof.
  intros Ha. rewrite Z.shiftr_div_pow2 by lia. change (2 ^ 2) with 4.
  Z.div_mod_to_equations. lia.
Qed.

Lemma b64_sextet2_eq (a t : Z) :
  0 <= t < 16 ->
  Z.lor (Z.shiftl (Z.land a 3) 4) t = a mod 4 * 16 + t.
Proof.
  intros Ht. change 3 with (2 ^ 2 - 1). rewrite land_low by lia.
  rewrite Z.shiftl_mul_pow2 by lia.
  rewrite (lor_low _ _ 4); [reflexivity | lia | apply Z.mod_mul; lia | exact Ht].
Qed.

Lemma b64_sextet3_eq (b t : Z) :
  0 <= t < 4 ->
  Z.lor (Z.shiftl (Z.land b 15) 2) t = b mod 16 * 4 + t.
Proof.
  intros Ht. change 15 with (2 ^ 4 - 1). rewrite land_low by lia.
  rewrite Z.shiftl_mul_pow2 by lia.
  rewrite (lor_low _ _ 2); [reflexivity | lia | apply Z.mod_mul; lia | exact Ht].
Qed.

Lemma b64_shiftr4_range (b : Z) : 0 <= b < 256 -> 0 <= Z.shiftr b 4 < 16.
Proof.
  intros Hb. rewrite Z.shiftr_div_pow2 by lia. change (2 ^ 4) with 16.
  Z.div_mod_to_equations. lia.
Qed.

Lemma b64_shiftr6_range (c : Z) : 0 <= c < 256 -> 0 <= Z.shiftr c 6 < 4.
Proof.
  intros Hc. rewrite Z.shiftr_div_pow2 by lia. change (2 ^ 6) with 64.
  Z.div_mod_to_equations. lia.
Qed.

Lemma b64_sextet4_eq (c : Z) : Z.land c 63 = c mod 64.
Proof. change 63 with (2 ^ 6 - 1). rewrite land_low by lia. reflexivity. Qed.

(** The three bytes of a group come back. *)
Lemma b64_byte1 (x : byte) (t : Z) :
  0 <= t < 16 ->
  let a := byte_to_Z x in
  Base64.byte1 (Z.shiftr a 2) (Z.lor (Z.shiftl (Z.land a 3) 4) t) = x.
Proof.
  intros Ht a. pose proof (byte_to_Z_range x) as Ha. fold a in Ha.
  etransitivity; [|apply (byte_of_to_Z x)]. fold a.
  clearbody a. unfold Base64.byte1. f_equal.
  rewrite b64_sextet2_eq by exact Ht.
  rewrite Z.shiftr_land. change (Z.shiftr 48 4) with (2 ^ 2 - 1).
  change 63 with (2 ^ 6 - 1). rewrite !land_low by lia.
  rewrite !Z.shiftr_div_pow2, !Z.shiftl_mul_pow2 by lia.
  rewrite (lor_low _ _ 2);
    [ | lia | apply Z.mod_mul; lia | apply Z.mod_pos_bound; lia ].
  change (2 ^ 2) with 4. change (2 ^ 4) with 16. change (2 ^ 6) with 64.
  Z.div_mod_to_equations. lia.
Qed.

Lemma b64_byte2 (y : byte) (s t : Z) :
  0 <= s < 4 -> 0 <= t < 4 ->
  let b := byte_to_Z y in
  Base64.byte2 (s * 16 + Z.shiftr b 4) (Z.lor (Z.shiftl (Z.land b 15) 2) t) = y.
Proof.
  intros Hs Ht b. pose proof (byte_to_Z_range y) as Hb. fold b in Hb.
  etransitivity; [|apply (byte_of_to_Z y)]. fold b.
  clearbody b. unfold Base64.byte2. f_equal.
  rewrite b64_sextet3_eq by exact Ht.
  rewrite Z.shiftr_land. change (Z.shiftr 60 2) with (2 ^ 4 - 1).
  change 15 with (2 ^ 4 - 1). rewrite !land_low by lia.
  rewrite !Z.shiftr_div_pow2, !Z.shiftl_mul_pow2 by lia.
  rewrite (lor_low _ _ 4);
    [ | lia | apply Z.mod_mul; lia | apply Z.mod_pos_bound; lia ].
  change (2 ^ 2) with 4. change (2 ^ 4) with 16.
  Z.div_mod_to_equations. lia.
Qed.

Lemma b64_byte3 (z : byte) (s : Z) :
  0 <= s < 16 ->
  let c := byte_to_Z z in
  Base64.byte3 (s * 4 + Z.shiftr c 6) (Z.land c 63) = z.
Proof.
  intros Hs c. pose proof (byte_to_Z_range z) as Hc. fold c in Hc.
  etransitivity; [|apply (byte_of_to_Z z)]. fold c.
  clearbody c. unfold Base64.byte3. f_equal.
  change 63 with (2 ^ 6 - 1). change 3 with (2 ^ 2 - 1).
  rewrite !land_low by lia.
  rewrite !Z.shiftr_div_pow2, !Z.shiftl_mul_pow2 by lia.
  rewrite (lor_low _ _ 6);
    [ | lia | apply Z.mod_mul; lia | apply Z.mod_pos_bound; lia ].
  rewrite Z.mod_mod by lia.
  change (2 ^ 2) with 4. change (2 ^ 6) with 64.
  Z.div_mod_to_equations. lia.
Qed.

Lemma b64_sextet2_range (a t : Z) :
  0 <= t < 16 -> 0 <= Z.lor (Z.shiftl (Z.land a 3) 4) t < 64.
Proof.
  intros Ht. rewrite b64_sextet2_eq by exact Ht.
  pose proof (Z.mod_pos_bound a 4). lia.
Qed.

Lemma b64_sextet3_range (b t : Z) :
  0 <= t < 4 -> 0 <= Z.lor (Z.shiftl (Z.land b 15) 2) t < 64.
Proof.
  intros Ht. rewrite b64_sextet3_eq by exact Ht.
  pose proof (Z.mod_pos_bound b 16). lia.
Qed.

Lemma b64_sextet4_range (c : Z) : 0 <= Z.land c 63 < 64.
Proof. rewrite b64_sextet4_eq. apply Z.mod_pos_bound. lia. Qed.

Lemma b64_decode_encode (bs : list byte) :
  Base64.decode (Base64.encode bs) = bs.
Proof.
  unfold Base64.decode.
  induction bs as [ | x | x y | x y z rest IH ] using list_ind3.
  - reflexivity.
  - pose proof (byte_to_Z_range x) as Hx.
    cbn [Base64.encode].
    rewrite <- (Z.lor_0_r (Z.shiftl (Z.land (byte_to_Z x) 3) 4)).
    rewrite !b64_sextets_char, b64_sextets_pad
      by (apply b64_sextet1_range || apply b64_sextet2_range; lia).
    cbn [Base64.group]. rewrite b64_byte1 by lia. reflexivity.
  - pose proof (byte_to_Z_range x) as Hx. pose proof (byte_to_Z_range y) as Hy.
    pose proof (b64_shiftr4_range _ Hy) as Hy4.
    cbn [Base64.encode].
    rewrite <- (Z.lor_0_r (Z.shiftl (Z.land (byte_to_Z y) 15) 2)).
    rewrite !b64_sextets_char, b64_sextets_pad
      by (apply b64_sextet1_range || apply b64_sextet2_range
          || apply b64_sextet3_range; lia).
    cbn [Base64.group]. rewrite b64_byte1 by lia.
    rewrite b64_sextet2_eq by lia.
    rewrite b64_byte2 by (pose proof (Z.mod_pos_bound (byte_to_Z x) 4); lia).
    reflexivity.
  - pose proof (byte_to_Z_range x) as Hx. pose proof (byte_to_Z_range y) as Hy.
    pose proof (byte_to_Z_range z) as Hz.
    pose proof (b64_shiftr4_range _ Hy) as Hy4.
    pose proof (b64_shiftr6_range _ Hz) as Hz6.
    cbn [Base64.encode].
    rewrite !b64_sextets_char
      by (apply b64_sextet1_range || apply b64_sextet2_range
          || apply b64_sextet3_range || apply b64_sextet4_range; lia).
    cbn [Base64.group]. rewrite IH. rewrite b64_byte1 by lia.
    rewrite b64_sextet2_eq by lia.
    rewrite b64_byte2 by (pose proof (Z.mod_pos_bound (byte_to_Z x) 4); lia).
    rewrite b64_sextet3_eq by lia.
    rewrite b64_byte3 by (pose proof (Z.mod_pos_bound (byte_to_Z y) 16); lia).
    reflexivity.
Qed.

(** ** UTF-8: the decoding machine in arithmetic *)

(** Settles the comparisons of a goal whose outcome follows from the
    hypotheses. *)
Ltac zarith := Z.div_mod_to_equations; lia.

Ltac ztest :=
  repeat match goal with
    | |- context [?a <=? ?b] =>
        first [ rewrite (proj2 (Z.leb_le a b)) by zarith
              | rewrite (proj2 (Z.leb_gt a b)) by zarith ]
    | |- context [?a <? ?b] =>
        first [ rewrite (proj2 (Z.ltb_lt a b)) by zarith
              | rewrite (proj2 (Z.ltb_ge a b)) by zarith ]
    | |- context [?a =? ?b] =>
        first [ rewrite (proj2 (Z.eqb_eq a b)) by zarith
              | rewrite (proj2 (Z.eqb_neq a b)) by zarith ]
    end.

Lemma utf8_land_1F (x : Z) : Z.land x 0x1F = x mod 32.
Proof. change 0x1F with (2 ^ 5 - 1). rewrite land_low by lia. reflexivity. Qed.

Lemma utf8_land_F (x : Z) : Z.land x 0xF = x mod 16.
Proof. change 0xF with (2 ^ 4 - 1). rewrite land_low by lia. reflexivity. Qed.

Lemma utf8_land_7 (x : Z) : Z.land x 0x7 = x mod 8.
Proof. change 0x7 with (2 ^ 3 - 1). rewrite land_low by lia. reflexivity. Qed.

Lemma utf8_land_3F (x : Z) : Z.land x 0x3F = x mod 64.
Proof. change 0x3F with (2 ^ 6 - 1). rewrite land_low by lia. reflexivity. Qed.

Lemma utf8_land_3FF (x : Z) : Z.land x 0x3FF = x mod 1024.
Proof. change 0x3FF with (2 ^ 10 - 1). rewrite land_low by lia. reflexivity. Qed.

(** Appending six bits to the code point read so far. *)
Lemma utf8_push (cp x : Z) :
  Z.lor (Z.shiftl cp 6) (Z.land x 0x3F) = cp * 64 + x mod 64.
Proof.
  rewrite utf8_land_3F, Z.shiftl_mul_pow2 by lia.
  rewrite (lor_low _ _ 6);
    [ reflexivity | lia | apply Z.mod_mul; lia | apply Z.mod_pos_bound; lia ].
Qed.

Lemma utf8_run_cons (st : Utf8.state) (b : byte) (rest : list byte) :
  Utf8.run st (b :: rest) =
  fst (Utf8.step st (byte_to_Z b)) ++ Utf8.run (snd (Utf8.step st (byte_to_Z b))) rest.
Proof. cbn [Utf8.run]. destruct (Utf8.step st (byte_to_Z b)). reflexivity. Qed.

Lemma utf8_lead1 (x : Z) :
  x <= 0x7F -> Utf8.lead x = ([x], Utf8.Start).
Proof. intros H. unfold Utf8.lead. ztest. reflexivity. Qed.

Lemma utf8_lead2 (x : Z) :
  0xC2 <= x <= 0xDF ->
  Utf8.lead x = ([], Utf8.Pending (x mod 32) 0 0x80 0xBF).
Proof. intros H. unfold Utf8.lead. ztest. cbn. rewrite utf8_land_1F. reflexivity. Qed.

Lemma utf8_lead3 (x : Z) :
  0xE0 <= x <= 0xEF ->
  Utf8.lead x = ([], Utf8.Pending (x mod 16) 1
                       (if x =? 0xE0 then 0xA0 else 0x80)
                       (if x =? 0xED then 0x9F else 0xBF)).
Proof.
  intros H. unfold Utf8.lead.
  rewrite (proj2 (Z.leb_gt x 0x7F)) by lia.
  rewrite (proj2 (Z.leb_gt x 0xDF)) by lia.
  rewrite (proj2 (Z.leb_le 0xE0 x)), (proj2 (Z.leb_le x 0xEF)) by lia.
  rewrite andb_false_r. cbn [andb]. rewrite utf8_land_F. reflexivity.
Qed.

Lemma utf8_lead4 (x : Z) :
  0xF0 <= x <= 0xF4 ->
  Utf8.lead x = ([], Utf8.Pending (x mod 8) 2
                       (if x =? 0xF0 then 0x90 else 0x80)
                       (if x =? 0xF4 then 0x8F else 0xBF)).
Proof.
  intros H. unfold Utf8.lead.
  rewrite (proj2 (Z.leb_gt x 0x7F)) by lia.
  rewrite (proj2 (Z.leb_gt x 0xDF)) by lia.
  rewrite (proj2 (Z.leb_gt x 0xEF)) by lia.
  rewrite (proj2 (Z.leb_le 0xF0 x)), (proj2 (Z.leb_le x 0xF4)) by lia.
  rewrite !andb_false_r. cbn [andb]. rewrite utf8_land_7. reflexivity.
Qed.

(** Lead bytes that start nothing: continuation bytes, C0, C1, F5..FF. *)
Lemma utf8_lead_bad (x : Z) :
  0x80 <= x <= 0xC1 \/ 0xF5 <= x ->
  Utf8.lead x = ([Utf8.replacement], Utf8.Start).
Proof. intros [H|H]; unfold Utf8.lead; ztest; reflexivity. Qed.

Lemma utf8_step_last (cp lower upper x : Z) :
  lower <= x <= upper ->
  Utf8.step (Utf8.Pending cp 0 lower upper) x
  = (Utf8.units (cp * 64 + x mod 64), Utf8.Start).
Proof.
  intros H. unfold Utf8.step.
  rewrite (proj2 (Z.leb_le lower x)), (proj2 (Z.leb_le x upper)) by lia.
  cbn [andb]. rewrite utf8_push. reflexivity.
Qed.

Lemma utf8_step_more (cp lower upper x : Z) (more : nat) :
  lower <= x <= upper ->
  Utf8.step (Utf8.Pending cp (S more) lower upper) x
  = ([], Utf8.Pending (cp * 64 + x mod 64) more 0x80 0xBF).
Proof.
  intros H. unfold Utf8.step.
  rewrite (proj2 (Z.leb_le lower x)), (proj2 (Z.leb_le x upper)) by lia.
  cbn [andb]. rewrite utf8_push. reflexivity.
Qed.

Lemma utf8_step_break (cp lower upper x : Z) (more : nat) :
  x < lower \/ upper < x ->
  Utf8.step (Utf8.Pending cp more lower upper) x
  = (Utf8.replacement :: fst (Utf8.lead x), snd (Utf8.lead x)).
Proof.
  intros H. unfold Utf8.step.
  assert (E : (lower <=? x) && (x <=? upper) = false).
  { apply andb_false_iff. destruct H; [left; apply Z.leb_gt | right; apply Z.leb_gt]; lia. }
  rewrite E. destruct (Utf8.lead x). reflexivity.
Qed.

Lemma utf8_tail_bounds (x : Z) : Utf8.tail x = true <-> 0x80 <= x <= 0xBF.
Proof. unfold Utf8.tail. rewrite andb_true_iff, !Z.leb_le. reflexivity. Qed.

Lemma utf8_second3_bounds (x1 x2 : Z) :
  Utf8.second3 x1 x2 = true <->
  (if x1 =? 0xE0 then 0xA0 else 0x80) <= x2 <= (if x1 =? 0xED then 0x9F else 0xBF).
Proof.
  unfold Utf8.second3, Utf8.tail.
  destruct (Z.eqb_spec x1 0xE0) as [->|]; [cbn|destruct (Z.eqb_spec x1 0xED)];
    rewrite andb_true_iff, !Z.leb_le; reflexivity.
Qed.

Lemma utf8_second4_bounds (x1 x2 : Z) :
  Utf8.second4 x1 x2 = true <->
  (if x1 =? 0xF0 then 0x90 else 0x80) <= x2 <= (if x1 =? 0xF4 then 0x8F else 0xBF).
Proof.
  unfold Utf8.second4, Utf8.tail.
  destruct (Z.eqb_spec x1 0xF0) as [->|]; [cbn|destruct (Z.eqb_spec x1 0xF4)];
    rewrite andb_true_iff, !Z.leb_le; reflexivity.
Qed.

(** What the machine makes of a well-formed sequence of one, two, three
    and four bytes. *)
Lemma utf8_run1 (b1 : byte) (rest : list byte) :
  byte_to_Z b1 <= 0x7F ->
  Utf8.run Utf8.Start (b1 :: rest) = byte_to_Z b1 :: Utf8.run Utf8.Start rest.
Proof.
  intros H. rewrite utf8_run_cons. cbn [Utf8.step].
  rewrite utf8_lead1 by exact H. reflexivity.
Qed.

Lemma utf8_run2 (b1 b2 : byte) (rest : list byte) :
  0xC2 <= byte_to_Z b1 <= 0xDF ->
  Utf8.tail (byte_to_Z b2) = true ->
  Utf8.run Utf8.Start (b1 :: b2 :: rest)
  = Utf8.units (byte_to_Z b1 mod 32 * 64 + byte_to_Z b2 mod 64)
    ++ Utf8.run Utf8.Start rest.
Proof.
  intros H1 H2. apply utf8_tail_bounds in H2.
  rewrite utf8_run_cons. cbn [Utf8.step]. rewrite utf8_lead2 by exact H1.
  cbn [fst snd app]. rewrite utf8_run_cons, utf8_step_last by exact H2.
  reflexivity.
Qed.

Lemma utf8_run3 (b1 b2 b3 : byte) (rest : list byte) :
  0xE0 <= byte_to_Z b1 <= 0xEF ->
  Utf8.second3 (byte_to_Z b1) (byte_to_Z b2) = true ->
  Utf8.tail (byte_to_Z b3) = true ->
  Utf8.run Utf8.Start (b1 :: b2 :: b3 :: rest)
  = Utf8.units ((byte_to_Z b1 mod 16 * 64 + byte_to_Z b2 mod 64) * 64
                + byte_to_Z b3 mod 64)
    ++ Utf8.run Utf8.Start rest.
Proof.
  intros H1 H2 H3. apply utf8_second3_bounds in H2. apply utf8_tail_bounds in H3.
  rewrite utf8_run_cons. cbn [Utf8.step]. rewrite utf8_lead3 by exact H1.
  cbn [fst snd app]. rewrite utf8_run_cons, utf8_step_more by exact H2.
  cbn [fst snd app]. rewrite utf8_run_cons, utf8_step_last by exact H3.
  reflexivity.
Qed.

Lemma utf8_run4 (b1 b2 b3 b4 : byte) (rest : list byte) :
  0xF0 <= byte_to_Z b1 <= 0xF4 ->
  Utf8.second4 (byte_to_Z b1) (byte_to_Z b2) = true ->
  Utf8.tail (byte_to_Z b3) = true ->
  Utf8.tail (byte_to_Z b4) = true ->
  Utf8.run Utf8.Start (b1 :: b2 :: b3 :: b4 :: rest)
  = Utf8.units (((byte_to_Z b1 mod 8 * 64 + byte_to_Z b2 mod 64) * 64
                 + byte_to_Z b3 mod 64) * 64 + byte_to_Z b4 mod 64)
    ++ Utf8.run Utf8.Start rest.
Proof.
  intros H1 H2 H3 H4. apply utf8_second4_bounds in H2.
  apply utf8_tail_bounds in H3. apply utf8_tail_bounds in H4.
  rewrite utf8_run_cons. cbn [Utf8.step]. rewrite utf8_lead4 by exact H1.
  cbn [fst snd app]. rewrite utf8_run_cons, utf8_step_more by exact H2.
  cbn [fst snd app]. rewrite utf8_run_cons, utf8_step_more by exact H3.
  cbn [fst snd app]. rewrite utf8_run_cons, utf8_step_last by exact H4.
  reflexivity.
Qed.

(** ** UTF-8: the encoder in arithmetic *)

Lemma utf8_cont (x : Z) : Z.lor 0x80 (Z.land x 0x3F) = 128 + x mod 64.
Proof.
  rewrite utf8_land_3F.
  apply (lor_low _ _ 7); [lia | reflexivity | ].
  pose proof (Z.mod_pos_bound x 64). change (2 ^ 7) with 128. lia.
Qed.

Lemma utf8_encode_cp1 (cp : Z) :
  cp < 0x80 -> Utf8.encode_cp cp = [byte_of_Z cp].
Proof. intros H. unfold Utf8.encode_cp. ztest. reflexivity. Qed.

Lemma utf8_encode_cp2 (cp : Z) :
  0x80 <= cp < 0x800 ->
  Utf8.encode_cp cp = [byte_of_Z (192 + cp / 64); byte_of_Z (128 + cp mod 64)].
Proof.
  intros H. unfold Utf8.encode_cp. ztest.
  rewrite utf8_cont, Z.shiftr_div_pow2 by lia. change (2 ^ 6) with 64.
  rewrite (lor_low _ _ 6); [reflexivity | lia | reflexivity | zarith].
Qed.

Lemma utf8_encode_cp3 (cp : Z) :
  0x800 <= cp < 0x10000 ->
  Utf8.encode_cp cp =
  [byte_of_Z (224 + cp / 4096); byte_of_Z (128 + cp / 64 mod 64);
   byte_of_Z (128 + cp mod 64)].
Proof.
  intros H. unfold Utf8.encode_cp. ztest.
  rewrite !utf8_cont, !Z.shiftr_div_pow2 by lia.
  change (2 ^ 6) with 64. change (2 ^ 12) with 4096.
  rewrite (lor_low _ _ 5); [reflexivity | lia | reflexivity | zarith].
Qed.

Lemma utf8_encode_cp4 (cp : Z) :
  0x10000 <= cp < 0x110000 ->
  Utf8.encode_cp cp =
  [byte_of_Z (240 + cp / 262144); byte_of_Z (128 + cp / 4096 mod 64);
   byte_of_Z (128 + cp / 64 mod 64); byte_of_Z (128 + cp mod 64)].
Proof.
  intros H. unfold Utf8.encode_cp. ztest.
  rewrite !utf8_cont, !Z.shiftr_div_pow2 by lia.
  change (2 ^ 6) with 64. change (2 ^ 12) with 4096. change (2 ^ 18) with 262144.
  rewrite (lor_low _ _ 4); [reflexivity | lia | reflexivity | zarith].
Qed.

Lemma utf8_combine_eq (hi lo : Z) :
  Utf8.combine hi lo = 0x10000 + hi mod 1024 * 1024 + lo mod 1024.
Proof.
  unfold Utf8.combine. rewrite !utf8_land_3FF, Z.shiftl_mul_pow2 by lia.
  rewrite (lor_low _ _ 10);
    [ change (2 ^ 10) with 1024; lia | lia | apply Z.mod_mul; lia
    | apply Z.mod_pos_bound; lia ].
Qed.

Lemma utf8_units_bmp (cp : Z) : cp < 0x10000 -> Utf8.units cp = [cp].
Proof. intros H. unfold Utf8.units. ztest. reflexivity. Qed.

Lemma utf8_units_astral (cp : Z) :
  0x10000 <= cp ->
  Utf8.units cp = [0xD800 + (cp - 0x10000) / 1024; 0xDC00 + (cp - 0x10000) mod 1024].
Proof.
  intros H. unfold Utf8.units. ztest.
  rewrite utf8_land_3FF, Z.shiftr_div_pow2 by lia. reflexivity.
Qed.

Lemma utf8_surrogate_bounds (u : Z) :
  (Utf8.is_high_surrogate u = true <-> 0xD800 <= u <= 0xDBFF)
  /\ (Utf8.is_low_surrogate u = true <-> 0xDC00 <= u <= 0xDFFF).
Proof.
  unfold Utf8.is_high_surrogate, Utf8.is_low_surrogate.
  rewrite !andb_true_iff, !Z.leb_le. split; reflexivity.
Qed.

Lemma utf8_units_combine (hi lo : Z) :
  Utf8.is_high_surrogate hi = true -> Utf8.is_low_surrogate lo = true ->
  Utf8.units (Utf8.combine hi lo) = [hi; lo].
Proof.
  intros Hh Hl. apply utf8_surrogate_bounds in Hh. apply utf8_surrogate_bounds in Hl.
  rewrite utf8_combine_eq, utf8_units_astral by zarith.
  f_equal; [|f_equal]; zarith.
Qed.

Lemma utf8_combine_scalar (hi lo : Z) :
  Utf8.is_high_surrogate hi = true -> Utf8.is_low_surrogate lo = true ->
  Utf8.scalar (Utf8.combine hi lo) /\ 0x10000 <= Utf8.combine hi lo.
Proof.
  intros Hh Hl. apply utf8_surrogate_bounds in Hh. apply utf8_surrogate_bounds in Hl.
  rewrite utf8_combine_eq. unfold Utf8.scalar. zarith.
Qed.

(** The machine reads back what the encoder writes. *)
Lemma utf8_run_encode_cp (cp : Z) (rest : list byte) :
  Utf8.scalar cp ->
  Utf8.run Utf8.Start (Utf8.encode_cp cp ++ rest)
  = Utf8.units cp ++ Utf8.run Utf8.Start rest.
Proof.
  intros [Hr Hs].
  destruct (Z.lt_ge_cases cp 0x80) as [H1|H1];
    [|destruct (Z.lt_ge_cases cp 0x800) as [H2|H2];
      [|destruct (Z.lt_ge_cases cp 0x10000) as [H3|H3]]].
  - rewrite utf8_encode_cp1 by lia. cbn [app].
    rewrite utf8_run1; rewrite byte_to_of_Z by lia; [|lia].
    rewrite utf8_units_bmp by lia. reflexivity.
  - rewrite utf8_encode_cp2 by lia. cbn [app].
    rewrite utf8_run2; rewrite ?byte_to_of_Z by zarith;
      [ | zarith | apply utf8_tail_bounds; zarith ].
    f_equal. f_equal. zarith.
  - rewrite utf8_encode_cp3 by lia. cbn [app].
    rewrite utf8_run3; rewrite ?byte_to_of_Z by zarith;
      [ | zarith | apply utf8_second3_bounds | apply utf8_tail_bounds; zarith ].
    + f_equal. f_equal. zarith.
    + destruct (Z.eqb_spec (224 + cp / 4096) 0xE0);
        destruct (Z.eqb_spec (224 + cp / 4096) 0xED); zarith.
  - rewrite utf8_encode_cp4 by lia. cbn [app].
    rewrite utf8_run4; rewrite ?byte_to_of_Z by zarith;
      [ | zarith | apply utf8_second4_bounds
        | apply utf8_tail_bounds; zarith | apply utf8_tail_bounds; zarith ].
    + f_equal. f_equal. zarith.
    + destruct (Z.eqb_spec (240 + cp / 262144) 0xF0);
        destruct (Z.eqb_spec (240 + cp / 262144) 0xF4); zarith.
Qed.

(** Induction over a list where the step may look one element further. *)
Lemma list_ind2 {A} (P : list A -> Prop) :
  P [] ->
  (forall x l, P l -> (forall y l', l = y :: l' -> P l') -> P (x :: l)) ->
  forall l, P l.
Proof.
  intros H0 Hstep l.
  assert (H : P l /\ (forall y l', l = y :: l' -> P l')).
  { induction l as [|a l [IH1 IH2]].
    - split; [exact H0 | discriminate].
    - split; [apply Hstep; assumption|].
      intros y l' E. injection E as -> ->. exact IH1. }
  apply H.
Qed.

(** ** UTF-8: a well-formed string survives encoding and decoding *)

Lemma utf8_decode_encode (s : jsstring) :
  Utf8.well_formed s = true -> Utf8.decode (Utf8.encode s) = s.
Proof.
  unfold Utf8.decode.
  induction s as [|u rest IH IH'] using list_ind2; [reflexivity|].
  cbn [Utf8.well_formed Utf8.encode].
  destruct (Utf8.is_high_surrogate u) eqn:Hh.
  - destruct rest as [|v rest']; [discriminate|].
    intros Hwf. apply andb_true_iff in Hwf as [Hl Hwf]. rewrite Hl.
    destruct (utf8_combine_scalar u v Hh Hl) as [Hsc _].
    rewrite utf8_run_encode_cp by exact Hsc.
    rewrite utf8_units_combine by assumption.
    rewrite (IH' v rest' eq_refl Hwf). reflexivity.
  - intros Hwf. apply andb_true_iff in Hwf as [Hu Hwf].
    apply andb_true_iff in Hu as [Hu Hl]. apply negb_true_iff in Hl. rewrite Hl.
    unfold is_unit in Hu. apply andb_true_iff in Hu as [Hu0 Hu1].
    apply Z.leb_le in Hu0. apply Z.ltb_lt in Hu1.
    assert (Hsc : Utf8.scalar u).
    { split; [lia|]. intros Hsur.
      destruct (utf8_surrogate_bounds u) as [B1 B2].
      destruct (Z.le_gt_cases u 0xDBFF).
      - rewrite (proj2 B1) in Hh by lia. discriminate.
      - rewrite (proj2 B2) in Hl by lia. discriminate. }
    rewrite utf8_run_encode_cp by exact Hsc.
    rewrite utf8_units_bmp by lia. rewrite (IH Hwf). reflexivity.
Qed.

(** ** UTF-8: a well-formed byte sequence survives decoding and encoding *)

Lemma utf8_encode_units (cp : Z) (s : jsstring) :
  Utf8.scalar cp ->
  Utf8.encode (Utf8.units cp ++ s) = Utf8.encode_cp cp ++ Utf8.encode s.
Proof.
  intros [Hr Hs].
  destruct (Z.lt_ge_cases cp 0x10000) as [H|H].
  - rewrite utf8_units_bmp by exact H. cbn [app Utf8.encode].
    unfold Utf8.is_high_surrogate, Utf8.is_low_surrogate.
    destruct (Z.le_gt_cases 0xD800 cp); ztest; reflexivity.
  - rewrite utf8_units_astral by exact H. cbn [app Utf8.encode].
    set (hi := 0xD800 + (cp - 0x10000) / 1024).
    set (lo := 0xDC00 + (cp - 0x10000) mod 1024).
    assert (Hh : Utf8.is_high_surrogate hi = true)
      by (apply utf8_surrogate_bounds; subst hi; zarith).
    assert (Hl : Utf8.is_low_surrogate lo = true)
      by (apply utf8_surrogate_bounds; subst lo; zarith).
    rewrite Hh, Hl. f_equal. f_equal.
    rewrite utf8_combine_eq. subst hi lo. zarith.
Qed.

Lemma byte_of_Z_eq (z : Z) (b : byte) : z = byte_to_Z b -> byte_of_Z z = b.
Proof. intros ->. apply byte_of_to_Z. Qed.

Lemma utf8_reencode2 (b1 b2 : byte) :
  0xC2 <= byte_to_Z b1 <= 0xDF ->
  Utf8.tail (byte_to_Z b2) = true ->
  let cp := byte_to_Z b1 mod 32 * 64 + byte_to_Z b2 mod 64 in
  Utf8.scalar cp /\ Utf8.encode_cp cp = [b1; b2].
Proof.
  intros H1 H2 cp. apply utf8_tail_bounds in H2.
  assert (Hcp : 0x80 <= cp < 0x800) by (subst cp; zarith).
  split; [unfold Utf8.scalar; lia|].
  rewrite utf8_encode_cp2 by exact Hcp.
  f_equal; [|f_equal]; apply byte_of_Z_eq; subst cp; zarith.
Qed.

Lemma utf8_reencode3 (b1 b2 b3 : byte) :
  0xE0 <= byte_to_Z b1 <= 0xEF ->
  Utf8.second3 (byte_to_Z b1) (byte_to_Z b2) = true ->
  Utf8.tail (byte_to_Z b3) = true ->
  let cp := (byte_to_Z b1 mod 16 * 64 + byte_to_Z b2 mod 64) * 64
            + byte_to_Z b3 mod 64 in
  Utf8.scalar cp /\ Utf8.encode_cp cp = [b1; b2; b3].
Proof.
  intros H1 H2 H3 cp. apply utf8_second3_bounds in H2. apply utf8_tail_bounds in H3.
  assert (Hcp : 0x800 <= cp < 0x10000 /\ ~ (0xD800 <= cp <= 0xDFFF)).
  { subst cp.
    destruct (Z.eqb_spec (byte_to_Z b1) 0xE0);
      destruct (Z.eqb_spec (byte_to_Z b1) 0xED); zarith. }
  split; [unfold Utf8.scalar; lia|].
  rewrite utf8_encode_cp3 by lia.
  assert (0x80 <= byte_to_Z b2 <= 0xBF)
    by (destruct (Z.eqb_spec (byte_to_Z b1) 0xE0);
        destruct (Z.eqb_spec (byte_to_Z b1) 0xED); lia).
  f_equal; [|f_equal; [|f_equal]]; apply byte_of_Z_eq; subst cp; zarith.
Qed.

Lemma utf8_reencode4 (b1 b2 b3 b4 : byte) :
  0xF0 <= byte_to_Z b1 <= 0xF4 ->
  Utf8.second4 (byte_to_Z b1) (byte_to_Z b2) = true ->
  Utf8.tail (byte_to_Z b3) = true ->
  Utf8.tail (byte_to_Z b4) = true ->
  let cp := ((byte_to_Z b1 mod 8 * 64 + byte_to_Z b2 mod 64) * 64
             + byte_to_Z b3 mod 64) * 64 + byte_to_Z b4 mod 64 in
  Utf8.scalar cp /\ Utf8.encode_cp cp = [b1; b2; b3; b4].
Proof.
  intros H1 H2 H3 H4 cp. apply utf8_second4_bounds in H2.
  apply utf8_tail_bounds in H3. apply utf8_tail_bounds in H4.
  assert (Hcp : 0x10000 <= cp < 0x110000).
  { subst cp.
    destruct (Z.eqb_spec (byte_to_Z b1) 0xF0);
      destruct (Z.eqb_spec (byte_to_Z b1) 0xF4); zarith. }
  split; [unfold Utf8.scalar; lia|].
  rewrite utf8_encode_cp4 by lia.
  assert (0x80 <= byte_to_Z b2 <= 0xBF)
    by (destruct (Z.eqb_spec (byte_to_Z b1) 0xF0);
        destruct (Z.eqb_spec (byte_to_Z b1) 0xF4); lia).
  f_equal; [|f_equal; [|f_equal; [|f_equal]]]; apply byte_of_Z_eq; subst cp; zarith.
Qed.

Lemma utf8_encode_decode_len (n : nat) (bs : list byte) :
  (length bs <= n)%nat ->
  Utf8.valid bs = true -> Utf8.encode (Utf8.decode bs) = bs.
Proof.
  unfold Utf8.decode. revert bs.
  induction n as [|n IH]; intros bs Hlen.
  { destruct bs; [reflexivity | cbn in Hlen; lia]. }
  destruct bs as [|b1 r1]; [reflexivity|].
  cbn [length] in Hlen. cbn [Utf8.valid].
  pose proof (byte_to_Z_range b1) as R1.
  destruct (Z.leb_spec (byte_to_Z b1) 0x7F) as [L1|L1].
  { intros Hv. rewrite utf8_run1 by exact L1.
    change (byte_to_Z b1 :: Utf8.run Utf8.Start r1)
      with (([byte_to_Z b1] ++ Utf8.run Utf8.Start r1)%list).
    rewrite <- (utf8_units_bmp (byte_to_Z b1)) by lia.
    rewrite utf8_encode_units by (unfold Utf8.scalar; lia).
    rewrite utf8_encode_cp1 by lia. rewrite byte_of_to_Z.
    rewrite IH by (assumption || lia). reflexivity. }
  destruct r1 as [|b2 r2]; [discriminate|]. cbn [length] in Hlen.
  destruct ((0xC2 <=? byte_to_Z b1) && (byte_to_Z b1 <=? 0xDF)) eqn:T2.
  { intros Hv. apply andb_true_iff in Hv as [Hb2 Hv].
    apply andb_true_iff in T2 as [Ta Tb]. apply Z.leb_le in Ta, Tb.
    destruct (utf8_reencode2 b1 b2 (conj Ta Tb) Hb2) as [Hsc Henc].
    rewrite utf8_run2 by (assumption || lia).
    rewrite utf8_encode_units by exact Hsc. rewrite Henc.
    rewrite IH by (assumption || lia). reflexivity. }
  destruct r2 as [|b3 r3]; [discriminate|]. cbn [length] in Hlen.
  destruct ((0xE0 <=? byte_to_Z b1) && (byte_to_Z b1 <=? 0xEF)) eqn:T3.
  { intros Hv. apply andb_true_iff in Hv as [Hv Hr].
    apply andb_true_iff in Hv as [Hb2 Hb3].
    apply andb_true_iff in T3 as [Ta Tb]. apply Z.leb_le in Ta, Tb.
    destruct (utf8_reencode3 b1 b2 b3 (conj Ta Tb) Hb2 Hb3) as [Hsc Henc].
    rewrite utf8_run3 by (assumption || lia).
    rewrite utf8_encode_units by exact Hsc. rewrite Henc.
    rewrite IH by (assumption || lia). reflexivity. }
  destruct r3 as [|b4 r4]; [discriminate|]. cbn [length] in Hlen.
  intros Hv. apply andb_true_iff in Hv as [Hv Hr].
  apply andb_true_iff in Hv as [Hv Hb4]. apply andb_true_iff in Hv as [Hv Hb3].
  apply andb_true_iff in Hv as [Hv Hb2]. apply andb_true_iff in Hv as [Ta Tb].
  apply Z.leb_le in Ta, Tb.
  destruct (utf8_reencode4 b1 b2 b3 b4 (conj Ta Tb) Hb2 Hb3 Hb4) as [Hsc Henc].
  rewrite utf8_run4 by (assumption || lia).
  rewrite utf8_encode_units by exact Hsc. rewrite Henc.
  rewrite IH by (assumption || lia). reflexivity.
Qed.

Lemma utf8_encode_decode (bs : list byte) :
  Utf8.valid bs = true -> Utf8.encode (Utf8.decode bs) = bs.
Proof. apply (utf8_encode_decode_len (length bs)). lia. Qed.

(** ** UTF-8: the encoder writes well-formed bytes *)

Lemma utf8_valid_encode_cp (cp : Z) (rest : list byte) :
  Utf8.scalar cp ->
  Utf8.valid (Utf8.encode_cp cp ++ rest) = Utf8.valid rest.
Proof.
  intros [Hr Hs].
  destruct (Z.lt_ge_cases cp 0x80) as [H1|H1];
    [|destruct (Z.lt_ge_cases cp 0x800) as [H2|H2];
      [|destruct (Z.lt_ge_cases cp 0x10000) as [H3|H3]]].
  - rewrite utf8_encode_cp1 by lia. cbn [app Utf8.valid].
    rewrite byte_to_of_Z by lia. ztest. reflexivity.
  - rewrite utf8_encode_cp2 by lia. cbn [app Utf8.valid].
    rewrite !byte_to_of_Z by zarith. unfold Utf8.tail. ztest. reflexivity.
  - rewrite utf8_encode_cp3 by lia. cbn [app Utf8.valid].
    rewrite !byte_to_of_Z by zarith. unfold Utf8.second3, Utf8.tail.
    destruct (Z.eqb_spec (224 + cp / 4096) 0xE0);
      [|destruct (Z.eqb_spec (224 + cp / 4096) 0xED)]; ztest; reflexivity.
  - rewrite utf8_encode_cp4 by lia. cbn [app Utf8.valid].
    rewrite !byte_to_of_Z by zarith. unfold Utf8.second4, Utf8.tail.
    destruct (Z.eqb_spec (240 + cp / 262144) 0xF0);
      [|destruct (Z.eqb_spec (240 + cp / 262144) 0xF4)]; ztest; reflexivity.
Qed.

Lemma utf8_replacement_scalar : Utf8.scalar Utf8.replacement.
Proof. unfold Utf8.scalar, Utf8.replacement. lia. Qed.

Lemma utf8_valid_encode (s : jsstring) :
  is_string s = true -> Utf8.valid (Utf8.encode s) = true.
Proof.
  induction s as [|u rest IH IH'] using list_ind2; [reflexivity|].
  cbn [is_string forallb]. intros Hs. apply andb_true_iff in Hs as [Hu Hrest].
  fold (is_string rest) in Hrest. specialize (IH Hrest).
  cbn [Utf8.encode].
  destruct (Utf8.is_high_surrogate u) eqn:Hh.
  - destruct rest as [|v rest'].
    + rewrite <- (app_nil_r (Utf8.encode_cp Utf8.replacement)).
      rewrite utf8_valid_encode_cp by apply utf8_replacement_scalar. reflexivity.
    + destruct (Utf8.is_low_surrogate v) eqn:Hl.
      * destruct (utf8_combine_scalar u v Hh Hl) as [Hsc _].
        rewrite utf8_valid_encode_cp by exact Hsc.
        apply (IH' v rest' eq_refl).
        cbn [is_string forallb] in Hrest. apply andb_true_iff in Hrest. apply Hrest.
      * rewrite utf8_valid_encode_cp by apply utf8_replacement_scalar. exact IH.
  - destruct (Utf8.is_low_surrogate u) eqn:Hl.
    + rewrite utf8_valid_encode_cp by apply utf8_replacement_scalar. exact IH.
    + assert (Hsc : Utf8.scalar u).
      { unfold is_unit in Hu. apply andb_true_iff in Hu as [Hu0 Hu1].
        apply Z.leb_le in Hu0. apply Z.ltb_lt in Hu1.
        split; [lia|]. intros Hsur.
        destruct (utf8_surrogate_bounds u) as [B1 B2].
        destruct (Z.le_gt_cases u 0xDBFF).
        - rewrite (proj2 B1) in Hh by lia. discriminate.
        - rewrite (proj2 B2) in Hl by lia. discriminate. }
      rewrite utf8_valid_encode_cp by exact Hsc. exact IH.
Qed.

(** ** UTF-8: the decoder gives code units in range *)

Lemma is_string_app (s t : jsstring) :
  is_string (s ++ t) = is_string s && is_string t.
Proof. apply forallb_app. Qed.

Lemma utf8_units_is_string (cp : Z) :
  0 <= cp < 0x110000 -> is_string (Utf8.units cp) = true.
Proof.
  intros H. destruct (Z.lt_ge_cases cp 0x10000).
  - rewrite utf8_units_bmp by lia. cbn. unfold is_unit. ztest. reflexivity.
  - rewrite utf8_units_astral by lia. cbn. unfold is_unit. ztest. reflexivity.
Qed.

Lemma utf8_lead_ok (x : Z) :
  0 <= x < 256 ->
  is_string (fst (Utf8.lead x)) = true /\ Utf8.state_ok (snd (Utf8.lead x)).
Proof.
  intros Hx.
  destruct (Z.le_gt_cases x 0x7F);
    [|destruct (Z.le_gt_cases x 0xC1);
      [|destruct (Z.le_gt_cases x 0xDF);
        [|destruct (Z.le_gt_cases x 0xEF);
          [|destruct (Z.le_gt_cases x 0xF4)]]]].
  - rewrite utf8_lead1 by lia. cbn. unfold is_unit. ztest. auto.
  - rewrite utf8_lead_bad by lia. cbn. auto.
  - rewrite utf8_lead2 by lia. cbn. repeat split; zarith.
  - rewrite utf8_lead3 by lia. cbn.
    destruct (Z.eqb_spec x 0xE0); destruct (Z.eqb_spec x 0xED);
      repeat split; zarith.
  - rewrite utf8_lead4 by lia. cbn.
    destruct (Z.eqb_spec x 0xF0); destruct (Z.eqb_spec x 0xF4);
      repeat split; zarith.
  - rewrite utf8_lead_bad by lia. cbn. auto.
Qed.

Lemma utf8_step_ok (st : Utf8.state) (x : Z) :
  Utf8.state_ok st -> 0 <= x < 256 ->
  is_string (fst (Utf8.step st x)) = true /\ Utf8.state_ok (snd (Utf8.step st x)).
Proof.
  intros Hst Hx. destruct st as [|cp more lower upper].
  { cbn [Utf8.step]. apply utf8_lead_ok. exact Hx. }
  destruct Hst as (Hm & Hcp & Hlo & Hhi & Hb).
  destruct (Z.lt_ge_cases x lower) as [Hl|Hl];
    [|destruct (Z.lt_ge_cases upper x) as [Hu|Hu]].
  - rewrite utf8_step_break by lia. cbn [fst snd].
    destruct (utf8_lead_ok x Hx) as [L1 L2]. split; [|exact L2].
    cbn [is_string forallb]. exact L1.
  - rewrite utf8_step_break by lia. cbn [fst snd].
    destruct (utf8_lead_ok x Hx) as [L1 L2]. split; [|exact L2].
    cbn [is_string forallb]. exact L1.
  - destruct more as [|[|[|more]]]; [| | |lia].
    + rewrite utf8_step_last by lia. cbn [fst snd]. split; [|exact I].
      apply utf8_units_is_string. cbn in Hb. zarith.
    + rewrite utf8_step_more by lia. cbn [fst snd]. split; [reflexivity|].
      cbn in Hb |- *. repeat split; zarith.
    + rewrite utf8_step_more by lia. cbn [fst snd]. split; [reflexivity|].
      cbn in Hb |- *. repeat split; zarith.
Qed.

Lemma utf8_run_is_string (bs : list byte) (st : Utf8.state) :
  Utf8.state_ok st -> is_string (Utf8.run st bs) = true.
Proof.
  revert st. induction bs as [|b rest IH]; intros st Hst.
  - destruct st; reflexivity.
  - rewrite utf8_run_cons, is_string_app.
    destruct (utf8_step_ok st (byte_to_Z b) Hst (byte_to_Z_range b)) as [H1 H2].
    rewrite H1, (IH _ H2). reflexivity.
Qed.

Lemma utf8_decode_is_string (bs : list byte) : is_string (Utf8.decode bs) = true.
Proof. apply utf8_run_is_string. exact I. Qed.

(** The loop of decoding and encoding only ever yields well-formed bytes,
    so it is the identity exactly on those. *)
Lemma utf8_roundtrip_iff (bs : list byte) :
  Utf8.encode (Utf8.decode bs) = bs <-> Utf8.valid bs = true.
Proof.
  split.
  - intros H. rewrite <- H. apply utf8_valid_encode, utf8_decode_is_string.
  - apply utf8_encode_decode.
Qed.

(** ** The platform model on sample inputs *)

Example ex_b64_hello : Base64.encode (bytes "hello") = js "aGVsbG8=".
Proof. reflexivity. Qed.
Example ex_b64_mock : Base64.encode (bytes "mock file data") = js "bW9jayBmaWxlIGRhdGE=".
Proof. reflexivity. Qed.
Example ex_b64_test : Base64.encode (bytes "testFileContents") = js "dGVzdEZpbGVDb250ZW50cw==".
Proof. reflexivity. Qed.
Example ex_b64_dec : Base64.decode (js "dGVzdEZpbGVDb250ZW50cw==") = bytes "testFileContents".
Proof. reflexivity. Qed.

Example ex_b64_low_byte :
  Base64.decode (map (fun u => u + 256) (js "aGVsbG8=")) = bytes "hello".
Proof. reflexivity. Qed.

Example ex_utf8_ascii : Utf8.encode (js "hello") = bytes "hello".
Proof. reflexivity. Qed.
Example ex_utf8_euro : Utf8.encode [0x20AC] = map byte_of_Z [0xE2; 0x82; 0xAC].
Proof. reflexivity. Qed.
Example ex_utf8_pair : Utf8.encode [0xD83D; 0xDE00] = map byte_of_Z [0xF0; 0x9F; 0x98; 0x80].
Proof. reflexivity. Qed.
Example ex_utf8_lone : Utf8.encode [0xD800] = map byte_of_Z [0xEF; 0xBF; 0xBD].
Proof. reflexivity. Qed.
Example ex_utf8_dec_pair : Utf8.decode (map byte_of_Z [0xF0; 0x9F; 0x98; 0x80]) = [0xD83D; 0xDE00].
Proof. reflexivity. Qed.
Example ex_utf8_dec_bad : Utf8.decode (map byte_of_Z [0xFF]) = [0xFFFD].
Proof. reflexivity. Qed.
Example ex_utf8_dec_trunc : Utf8.decode (map byte_of_Z [0xE2; 0x82; 0x41]) = [0xFFFD; 0x41].
Proof. reflexivity. Qed.
Example ex_utf8_dec_surr : Utf8.decode (map byte_of_Z [0xED; 0xA0; 0x80]) = [0xFFFD; 0xFFFD; 0xFFFD].
Proof. reflexivity. Qed.
Example ex_utf8_valid : Utf8.valid (map byte_of_Z [0xED; 0xA0; 0x80]) = false.
Proof. reflexivity. Qed.

(** ** The client on the calls of the test suite *)

Example ex_constructor_defaults :
  constructor (VStr (js "testServiceSecret")) (VStr (js "testServiceToken"))
    (VStr (js "testServiceSlug")) (VStr (js "http://localhost:8080")) None
  = Return sample_client.
Proof. reflexivity. Qed.

Example ex_constructor_overrides :
  exists this,
    constructor (VStr (js "testServiceSecret")) (VStr (js "testServiceToken"))
      (VStr (js "testServiceSlug")) (VStr (js "http://localhost:8080"))
      (Some {[ "maxSize" := VNum (100 * 1024); "expires" := VNum 7 ]})
    = Return this
    /\ maxSize this = VNum 102400 /\ expires this = VNum 7.
Proof. eexists. repeat split. Qed.

Example ex_store_policy_default :
  store_policy sample_client None
  = {[ "max_size" := VNum 10485760; "expires" := VNum 28 ]}.
Proof. vm_compute. reflexivity. Qed.

Example ex_store_policy_given :
  store_policy sample_client
    (Some {[ "max_size" := VNum 102400; "expires" := VNum 7;
             "allowed_types" := VArr [VStr (js "image/*")] ]})
  = {[ "max_size" := VNum 102400; "expires" := VNum 7;
       "allowed_types" := VArr [VStr (js "image/*")] ]}.
Proof. vm_compute. reflexivity. Qed.

Example ex_store_payload_file :
  store_file (FileString (js "testFileContents")) = js "dGVzdEZpbGVDb250ZW50cw==".
Proof. reflexivity. Qed.

Example ex_fetch_decoded :
  fetch sample_encrypt
    (reply (VObj {[ "file" := VStr (js "dGVzdEZpbGVDb250ZW50cw==") ]}))
    no_array_like sample_client sample_fetch_args sample_logger
  = Fulfilled (VStr (js "testFileContents")).
Proof. reflexivity. Qed.

(** ** [store]: what the transport is handed, and the result check *)

Lemma store_calls_transport
    (encrypt : value -> value -> value)
    (sendPost : request -> value -> promise value)
    (this : client) (a : args) (logger : value) (req : request) :
  store_request encrypt this a = Return req ->
  store encrypt sendPost this a logger
  = Return (then_ (sendPost req logger) store_check).
Proof. intros H. unfold store. rewrite H. reflexivity. Qed.

Lemma store_request_file
    (encrypt : value -> value -> value) (this : client) (a : args) (f : file_content) :
  file a = Some f ->
  exists req,
    store_request encrypt this a = Return req
    /\ payload req !! "file" = Some (VStr (store_file f))
    /\ outgoing_policy req = Some (store_policy this (policy a)).
Proof.
  intros Hf. unfold store_request. rewrite Hf. eexists. split; [reflexivity|].
  unfold outgoing_policy. cbn [payload]. split; by simplify_map_eq.
Qed.

(** C1 as stated fails when the transport resolves with [null] (or
    [undefined]): the fingerprint cannot be read, and [store] rejects with
    a [TypeError], not with the client error 500 / ENOFINGERPRINT. *)
Lemma store_null_result_counterexample :
  store sample_encrypt (reply VNull) sample_client sample_store_args sample_logger
  = Return (Rejected TypeError)
  /\ Return (Rejected TypeError)
     <> Return (Rejected (ClientError "FBUserFileStoreClientError" (VNum 500)
                            "ENOFINGERPRINT") : promise value).
Proof. split; [reflexivity | discriminate]. Qed.

(** C1, amended.  Whatever the transport resolves with during [store],
    other than [undefined] and [null]: its [fingerprint] can be read; when
    that is not truthy, [store] rejects with the client error of code 500
    and message ENOFINGERPRINT; when it is truthy, [store] resolves with
    that very result. *)
Theorem store_checks_fingerprint
    (encrypt : value -> value -> value)
    (sendPost : request -> value -> promise value)
    (this : client) (a : args) (logger : value)
    (req : request) (result : value) :
  store_request encrypt this a = Return req ->
  sendPost req logger = Fulfilled result ->
  result <> VUndefined ->
  result <> VNull ->
  exists fp,
    field result "fingerprint" = Return fp
    /\ (truthy fp = false ->
        store encrypt sendPost this a logger
        = Return (Rejected (ClientError "FBUserFileStoreClientError" (VNum 500)
                              "ENOFINGERPRINT")))
    /\ (truthy fp = true ->
        store encrypt sendPost this a logger = Return (Fulfilled result)).
Proof.
  intros Hreq Hpost Hu Hn.
  assert (Hfp : exists fp, field result "fingerprint" = Return fp).
  { destruct result; try contradiction; cbn [field]; eauto. }
  destruct Hfp as [fp Hfp]. exists fp. split; [exact Hfp|].
  rewrite (store_calls_transport _ _ _ _ _ _ Hreq), Hpost.
  unfold then_, store_check. rewrite Hfp. unfold bind.
  split; intros ->; reflexivity.
Qed.

Lemma store_checks_fingerprint_witness :
  store sample_encrypt (reply (VObj ∅)) sample_client sample_store_args sample_logger
  = Return (Rejected (ClientError "FBUserFileStoreClientError" (VNum 500) "ENOFINGERPRINT"))
  /\ store sample_encrypt (reply (VObj with_fingerprint)) sample_client
       sample_store_args sample_logger
     = Return (Fulfilled (VObj with_fingerprint)).
Proof.
  destruct (store_request sample_encrypt sample_client sample_store_args)
    as [req|e] eqn:E; [|discriminate E].
  split.
  - destruct (store_checks_fingerprint sample_encrypt (reply (VObj ∅))
                sample_client sample_store_args sample_logger req
                (VObj ∅) E eq_refl) as (fp & Hfp & Hfalsy & _);
      [discriminate | discriminate |].
    apply Hfalsy. injection Hfp as <-. reflexivity.
  - destruct (store_checks_fingerprint sample_encrypt (reply (VObj with_fingerprint))
                sample_client sample_store_args sample_logger req
                (VObj with_fingerprint) E eq_refl) as (fp & Hfp & _ & Htruthy);
      [discriminate | discriminate |].
    apply Htruthy. injection Hfp as <-. reflexivity.
Defined.

(** C5.  For every byte content passed as the file of [store], the [file]
    field of the payload is a string whose base64 decoding is exactly that
    content. *)
Theorem store_file_roundtrip
    (encrypt : value -> value -> value) (this : client) (a : args) (b : list byte) :
  file a = Some (FileBuffer b) ->
  exists req s,
    store_request encrypt this a = Return req
    /\ payload req !! "file" = Some (VStr s)
    /\ Base64.decode s = b.
Proof.
  intros Hf. destruct (store_request_file encrypt this a _ Hf) as (req & Hreq & Hfile & _).
  exists req, (Base64.encode b). repeat split; [exact Hreq | exact Hfile |].
  apply b64_decode_encode.
Qed.

Lemma store_file_roundtrip_witness :
  exists req s,
    store_request sample_encrypt sample_client
      (set_file sample_path_args (FileBuffer (bytes "hello"))) = Return req
    /\ payload req !! "file" = Some (VStr s)
    /\ Base64.decode s = bytes "hello".
Proof.
  apply (store_file_roundtrip sample_encrypt sample_client
           (set_file sample_path_args (FileBuffer (bytes "hello")))
           (bytes "hello")).
  reflexivity.
Defined.

(** ** [storeFromPath] *)

(** Once the file is read, [store] is called with it and cannot throw, and
    the promise of [storeFromPath] is fulfilled with [undefined] whatever
    becomes of the promise of [store]. *)
Lemma storeFromPath_fulfilled
    (encrypt : value -> value -> value)
    (sendPost : request -> value -> promise value)
    (readFile : value -> promise (list byte))
    (this : client) (filePath : value) (a : args) (logger : value)
    (content : list byte) :
  readFile filePath = Fulfilled content ->
  storeFromPath encrypt sendPost readFile this filePath a logger
  = Fulfilled VUndefined.
Proof.
  intros Hread. unfold storeFromPath. rewrite Hread. reflexivity.
Qed.

(** C2, at a file that reads as "hello".  With a transport that resolves
    with [{fingerprint: "fp1"}], [store] on the args with the file set
    resolves with that mapping, and [storeFromPath] resolves with
    [undefined]; with a transport that resolves with [{}], [store] rejects
    with ENOFINGERPRINT and [storeFromPath] still resolves with
    [undefined]. *)
Theorem storeFromPath_drops_store_outcome :
  let a := set_file sample_path_args (FileBuffer (bytes "hello")) in
  let path := VStr (js "test-data/test-file") in
  (store sample_encrypt (reply (VObj with_fingerprint)) sample_client a sample_logger
   = Return (Fulfilled (VObj with_fingerprint))
   /\ storeFromPath sample_encrypt (reply (VObj with_fingerprint))
        (sample_readFile (bytes "hello")) sample_client path sample_path_args
        sample_logger
      = Fulfilled VUndefined)
  /\ (store sample_encrypt (reply (VObj ∅)) sample_client a sample_logger
      = Return (Rejected (ClientError "FBUserFileStoreClientError" (VNum 500)
                            "ENOFINGERPRINT"))
      /\ storeFromPath sample_encrypt (reply (VObj ∅))
           (sample_readFile (bytes "hello")) sample_client path sample_path_args
           sample_logger
         = Fulfilled VUndefined).
Proof. repeat split. Qed.

(** ** The constructor *)

(** C7.  A call that misses some of the first four arguments fails with
    the error of the first one missing, in the order secret, token, slug,
    base URL. *)
Theorem constructor_first_missing
    (secret token slug baseUrl : value) (options : option (gmap string value)) :
  (missing secret = true ->
   constructor secret token slug baseUrl options
   = Throw (ClientError "FBUserFileStoreClientError" (VStr (js "ENOSERVICESECRET"))
              "No service secret passed to client"))
  /\ (missing secret = false -> missing token = true ->
      constructor secret token slug baseUrl options
      = Throw (ClientError "FBUserFileStoreClientError" (VStr (js "ENOSERVICETOKEN"))
                 "No service token passed to client"))
  /\ (missing secret = false -> missing token = false -> missing slug = true ->
      constructor secret token slug baseUrl options
      = Throw (ClientError "FBUserFileStoreClientError" (VStr (js "ENOSERVICESLUG"))
                 "No service slug passed to client"))
  /\ (missing secret = false -> missing token = false -> missing slug = false ->
      missing baseUrl = true ->
      constructor secret token slug baseUrl options
      = Throw (ClientError "FBUserFileStoreClientError" (VStr (js "ENOMICROSERVICEURL"))
                 "No microservice url passed to client")).
Proof.
  unfold constructor, FBJWTClient.
  repeat split; intros; repeat match goal with H : missing _ = _ |- _ => rewrite H; clear H end;
    reflexivity.
Qed.

Lemma constructor_first_missing_witness :
  constructor VUndefined VUndefined VUndefined VUndefined None
  = Throw (ClientError "FBUserFileStoreClientError" (VStr (js "ENOSERVICESECRET"))
             "No service secret passed to client")
  /\ constructor (VStr (js "testServiceSecret")) VUndefined (VStr (js "testServiceSlug"))
       VUndefined None
     = Throw (ClientError "FBUserFileStoreClientError" (VStr (js "ENOSERVICETOKEN"))
                "No service token passed to client")
  /\ constructor (VStr (js "testServiceSecret")) (VStr (js "testServiceToken"))
       VUndefined VUndefined None
     = Throw (ClientError "FBUserFileStoreClientError" (VStr (js "ENOSERVICESLUG"))
                "No service slug passed to client")
  /\ constructor (VStr (js "testServiceSecret")) (VStr (js "testServiceToken"))
       (VStr (js "testServiceSlug")) VUndefined None
     = Throw (ClientError "FBUserFileStoreClientError" (VStr (js "ENOMICROSERVICEURL"))
                "No microservice url passed to client").
Proof.
  split; [|split; [|split]].
  - apply (proj1 (constructor_first_missing _ _ _ _ _)). reflexivity.
  - apply (proj1 (proj2 (constructor_first_missing _ _ _ _ _))); reflexivity.
  - apply (proj1 (proj2 (proj2 (constructor_first_missing _ _ _ _ _)))); reflexivity.
  - apply (proj2 (proj2 (proj2 (constructor_first_missing _ _ _ _ _)))); reflexivity.
Defined.

(** C8 as stated fails when the options carry a falsy [maxSize]: with
    [{maxSize: 0}] the instance gets the default, not 0. *)
Lemma constructor_maxSize_zero_counterexample :
  exists this,
    constructor (VStr (js "testServiceSecret")) (VStr (js "testServiceToken"))
      (VStr (js "testServiceSlug")) (VStr (js "http://localhost:8080"))
      (Some {[ "maxSize" := VNum 0 ]}) = Return this
    /\ maxSize this = VNum 10485760
    /\ maxSize this <> VNum 0.
Proof. eexists. split; [reflexivity|]. split; [reflexivity|discriminate]. Qed.

(** C8, amended.  When no argument is missing the client is built; its
    [maxSize] is 10 * 1024 * 1024 when the options carry no [maxSize] or a
    falsy one, and the supplied value itself when that is truthy. *)
Theorem constructor_maxSize
    (secret token slug baseUrl : value) (options : option (gmap string value)) :
  missing secret = false -> missing token = false ->
  missing slug = false -> missing baseUrl = false ->
  exists this,
    constructor secret token slug baseUrl options = Return this
    /\ (truthy (own (default ∅ options) "maxSize") = false ->
        maxSize this = VNum (10 * 1024 * 1024))
    /\ (forall v, default ∅ options !! "maxSize" = Some v -> truthy v = true ->
        maxSize this = v).
Proof.
  intros H1 H2 H3 H4. unfold constructor, FBJWTClient. rewrite H1, H2, H3, H4.
  cbn [bind]. eexists. split; [reflexivity|]. cbn [maxSize]. unfold or_else. split.
  - intros ->. reflexivity.
  - intros v Hv Ht. unfold own. rewrite Hv. simpl. rewrite Ht. reflexivity.
Qed.

Lemma constructor_maxSize_witness :
  exists this,
    constructor (VStr (js "testServiceSecret")) (VStr (js "testServiceToken"))
      (VStr (js "testServiceSlug")) (VStr (js "http://localhost:8080"))
      (Some {[ "maxSize" := VNum (100 * 1024) ]}) = Return this
    /\ (truthy (own (default ∅ (Some {[ "maxSize" := VNum (100 * 1024) ]})) "maxSize") = false ->
        maxSize this = VNum (10 * 1024 * 1024))
    /\ (forall v,
          default ∅ (Some ({[ "maxSize" := VNum (100 * 1024) ]} : gmap string value))
            !! "maxSize" = Some v ->
          truthy v = true -> maxSize this = v).
Proof.
  apply (constructor_maxSize (VStr (js "testServiceSecret")) (VStr (js "testServiceToken"))
           (VStr (js "testServiceSlug")) (VStr (js "http://localhost:8080"))
           (Some {[ "maxSize" := VNum (100 * 1024) ]}));
    reflexivity.
Defined.

(** ** The outgoing policy *)

Lemma Object_assign_empty (pol : option (gmap string value)) :
  Object_assign ∅ pol = default ∅ pol.
Proof.
  destruct pol as [p|]; [|reflexivity].
  unfold Object_assign. simpl. apply map_eq. intros k.
  rewrite lookup_union, lookup_empty. by destruct (p !! k).
Qed.

Lemma own_insert_ne (o : gmap string value) (j k : string) (v : value) :
  j <> k -> own (<[j := v]> o) k = own o k.
Proof. intros H. unfold own. by rewrite lookup_insert_ne. Qed.

(** The outgoing policy, key by key. *)
Lemma store_policy_lookup (this : client) (pol : option (gmap string value)) (k : string) :
  store_policy this pol !! k =
  if decide (k = "allowed_types") then
    if empty_sequence (own (default ∅ pol) "allowed_types") then None
    else default ∅ pol !! k
  else if decide (k = "max_size") then
    if truthy (own (default ∅ pol) "max_size") then default ∅ pol !! k
    else Some (maxSize this)
  else if decide (k = "expires") then
    if truthy (own (default ∅ pol) "expires") then default ∅ pol !! k
    else Some (expires this)
  else default ∅ pol !! k.
Proof.
  unfold store_policy. rewrite Object_assign_empty.
  generalize (default ∅ pol). intros p.
  set (p1 := if negb (truthy (own p "max_size"))
             then <["max_size" := maxSize this]> p else p).
  set (p2 := if negb (truthy (own p1 "expires"))
             then <["expires" := expires this]> p1 else p1).
  assert (E1 : own p1 "expires" = own p "expires").
  { subst p1. destruct (truthy (own p "max_size")); [reflexivity|].
    by apply own_insert_ne. }
  assert (E2 : own p2 "allowed_types" = own p "allowed_types").
  { subst p2. rewrite E1.
    destruct (truthy (own p "expires")); cbn [negb].
    - subst p1. destruct (truthy (own p "max_size")); [reflexivity|].
      by apply own_insert_ne.
    - rewrite own_insert_ne by done.
      subst p1. destruct (truthy (own p "max_size")); [reflexivity|].
      by apply own_insert_ne. }
  rewrite E2. subst p2. rewrite E1. subst p1.
  destruct (empty_sequence (own p "allowed_types"));
    destruct (truthy (own p "max_size"));
    destruct (truthy (own p "expires")); cbn [negb];
    repeat case_decide; by simplify_map_eq.
Qed.

(** C3 as stated fails on its last clause: a [max_size] of 0 is present in
    the supplied policy and is not sent as supplied. *)
Lemma store_policy_zero_max_size_counterexample :
  let a := set_policy sample_store_args (Some {[ "max_size" := VNum 0 ]}) in
  supplied a !! "max_size" = Some (VNum 0)
  /\ exists req out,
       store_request sample_encrypt sample_client a = Return req
       /\ outgoing_policy req = Some out
       /\ out !! "max_size" = Some (VNum 10485760)
       /\ out !! "max_size" <> Some (VNum 0).
Proof.
  split; [reflexivity|]. eexists. eexists.
  split; [reflexivity|]. split; [reflexivity|]. split; [reflexivity|discriminate].
Qed.

(** C3, amended.  In the policy handed to the transport, [max_size] is the
    instance's [maxSize] when the supplied policy omits it, [expires] is
    the instance's [expires] when the supplied policy omits it, and a field
    of the supplied policy is sent as supplied unless it is a falsy
    [max_size] or [expires], or an [allowed_types] of length 0. *)
Theorem store_policy_defaults
    (encrypt : value -> value -> value) (this : client) (a : args) (req : request) :
  store_request encrypt this a = Return req ->
  exists out,
    outgoing_policy req = Some out
    /\ (supplied a !! "max_size" = None -> out !! "max_size" = Some (maxSize this))
    /\ (supplied a !! "expires" = None -> out !! "expires" = Some (expires this))
    /\ (forall k v,
          supplied a !! k = Some v ->
          (k = "max_size" \/ k = "expires" -> truthy v = true) ->
          (k = "allowed_types" -> empty_sequence v = false) ->
          out !! k = Some v).
Proof.
  intros Hreq. unfold store_request in Hreq.
  destruct (file a) as [f|] eqn:Hf; [|discriminate].
  destruct (store_request_file encrypt this a f Hf) as (req' & Hreq' & _ & Hpol).
  unfold store_request in Hreq'. rewrite Hf in Hreq'.
  assert (req' = req) as -> by congruence.
  exists (store_policy this (policy a)). split; [exact Hpol|].
  unfold supplied. repeat split.
  - intros Hk. rewrite store_policy_lookup. repeat case_decide; try done.
    unfold own. rewrite Hk. reflexivity.
  - intros Hk. rewrite store_policy_lookup. repeat case_decide; try done.
    unfold own. rewrite Hk. reflexivity.
  - intros k v Hk Hfalsy Hempty. rewrite store_policy_lookup.
    repeat case_decide; subst; unfold own; rewrite ?Hk; simpl;
      rewrite ?Hfalsy, ?Hempty by auto; done.
Qed.

Lemma store_policy_defaults_witness :
  let a := set_policy sample_store_args
             (Some {[ "allowed_types" := VArr [VStr (js "image/*")] ]}) in
  exists req,
    store_request sample_encrypt sample_client a = Return req
    /\ exists out,
         outgoing_policy req = Some out
         /\ (supplied a !! "max_size" = None ->
             out !! "max_size" = Some (maxSize sample_client))
         /\ (supplied a !! "expires" = None ->
             out !! "expires" = Some (expires sample_client))
         /\ (forall k v,
               supplied a !! k = Some v ->
               (k = "max_size" \/ k = "expires" -> truthy v = true) ->
               (k = "allowed_types" -> empty_sequence v = false) ->
               out !! k = Some v).
Proof.
  intros a. eexists. split; [reflexivity|].
  apply (store_policy_defaults sample_encrypt sample_client a). reflexivity.
Defined.

(** C4.  When the supplied policy has an empty array as [allowed_types],
    the policy handed to the transport has no [allowed_types] key; a
    non-empty array is handed over as it is. *)
Theorem store_policy_allowed_types
    (encrypt : value -> value -> value) (this : client) (a : args) (req : request)
    (types : list value) :
  store_request encrypt this a = Return req ->
  supplied a !! "allowed_types" = Some (VArr types) ->
  exists out,
    outgoing_policy req = Some out
    /\ (types = [] -> out !! "allowed_types" = None)
    /\ (types <> [] -> out !! "allowed_types" = Some (VArr types)).
Proof.
  intros Hreq Hk. unfold store_request in Hreq.
  destruct (file a) as [f|] eqn:Hf; [|discriminate].
  destruct (store_request_file encrypt this a f Hf) as (req' & Hreq' & _ & Hpol).
  unfold store_request in Hreq'. rewrite Hf in Hreq'.
  assert (req' = req) as -> by congruence.
  exists (store_policy this (policy a)). split; [exact Hpol|].
  unfold supplied in Hk. rewrite store_policy_lookup.
  case_decide; [|done]. unfold own. rewrite Hk. simpl.
  split; intros Ht; destruct types; done.
Qed.

Lemma store_policy_allowed_types_witness :
  (exists req out,
     store_request sample_encrypt sample_client
       (set_policy sample_store_args (Some {[ "allowed_types" := VArr [] ]}))
     = Return req
     /\ outgoing_policy req = Some out
     /\ out !! "allowed_types" = None)
  /\ (exists req out,
        store_request sample_encrypt sample_client
          (set_policy sample_store_args
             (Some {[ "allowed_types" := VArr [VStr (js "image/*")] ]}))
        = Return req
        /\ outgoing_policy req = Some out
        /\ out !! "allowed_types" = Some (VArr [VStr (js "image/*")])).
Proof.
  split.
  - destruct (store_request sample_encrypt sample_client
                (set_policy sample_store_args (Some {[ "allowed_types" := VArr [] ]})))
      as [req|e] eqn:E; [|discriminate E].
    destruct (store_policy_allowed_types sample_encrypt sample_client _ req [] E eq_refl)
      as (out & Hout & Hempty & _).
    exists req, out. split; [reflexivity|]. split; [exact Hout|].
    apply Hempty. reflexivity.
  - destruct (store_request sample_encrypt sample_client
                (set_policy sample_store_args
                   (Some {[ "allowed_types" := VArr [VStr (js "image/*")] ]})))
      as [req|e] eqn:E; [|discriminate E].
    destruct (store_policy_allowed_types sample_encrypt sample_client _ req
                [VStr (js "image/*")] E eq_refl)
      as (out & Hout & _ & Hsome).
    exists req, out. split; [reflexivity|]. split; [exact Hout|].
    apply Hsome. discriminate.
Defined.

(** C9.  A [max_size] or [expires] that is present with a falsy value is
    replaced by the instance default, and the call goes on exactly as if
    the field had been left out: with a file given, the policy that the
    request carries has the instance default under that key, and the
    request of the call without the key is the same request, carrying the
    same policy; the outcome of [store] is the same too. *)
Theorem store_policy_falsy_as_absent
    (encrypt : value -> value -> value)
    (sendPost : request -> value -> promise value)
    (this : client) (a : args) (logger : value)
    (p : gmap string value) (k : string) (v : value) :
  policy a = Some p ->
  k = "max_size" \/ k = "expires" ->
  p !! k = Some v ->
  truthy v = false ->
  (store_policy this (Some p) !! k
   = Some (if decide (k = "max_size") then maxSize this else expires this)
   /\ store_request encrypt this a
      = store_request encrypt this (set_policy a (Some (delete k p)))
   /\ store encrypt sendPost this a logger
      = store encrypt sendPost this (set_policy a (Some (delete k p))) logger)
  /\ (forall f, file a = Some f ->
        exists req out,
          store_request encrypt this a = Return req
          /\ store_request encrypt this (set_policy a (Some (delete k p))) = Return req
          /\ outgoing_policy req = Some out
          /\ out !! k
             = Some (if decide (k = "max_size") then maxSize this else expires this)
          /\ store encrypt sendPost this a logger
             = Return (then_ (sendPost req logger) store_check)
          /\ store encrypt sendPost this (set_policy a (Some (delete k p))) logger
             = Return (then_ (sendPost req logger) store_check)).
Proof.
  intros Hp Hk Hv Hfalsy.
  assert (Hold :
    store_policy this (Some p) !! k
    = Some (if decide (k = "max_size") then maxSize this else expires this)
    /\ store_request encrypt this a
       = store_request encrypt this (set_policy a (Some (delete k p)))
    /\ store encrypt sendPost this a logger
       = store encrypt sendPost this (set_policy a (Some (delete k p))) logger).
  { assert (Hlook : store_policy this (Some p) !! k
                    = Some (if decide (k = "max_size") then maxSize this else expires this)).
    { rewrite store_policy_lookup. simpl.
      destruct Hk as [-> | ->]; repeat case_decide; try done;
        unfold own; rewrite Hv; simpl; rewrite Hfalsy; reflexivity. }
    assert (Hsame : store_policy this (Some p) = store_policy this (Some (delete k p))).
    { apply map_eq. intros j. rewrite !store_policy_lookup. simpl.
      assert (Hown : forall i, i <> k -> own (delete k p) i = own p i).
      { intros i Hi. unfold own. by rewrite lookup_delete_ne. }
      assert (Hdel : own (delete k p) k = VUndefined).
      { unfold own. by rewrite lookup_delete_eq. }
      assert (Hpk : truthy (own p k) = false).
      { unfold own. rewrite Hv. exact Hfalsy. }
      destruct Hk as [-> | ->].
      - rewrite (Hown "allowed_types"), (Hown "expires") by done.
        rewrite Hdel, Hpk. simpl.
        repeat case_decide; subst; try done;
          repeat match goal with
                 | |- context [if ?b then _ else _] => destruct b
                 end; try done; by rewrite lookup_delete_ne.
      - rewrite (Hown "allowed_types"), (Hown "max_size") by done.
        rewrite Hdel, Hpk. simpl.
        repeat case_decide; subst; try done;
          repeat match goal with
                 | |- context [if ?b then _ else _] => destruct b
                 end; try done; by rewrite lookup_delete_ne. }
    assert (Hreq : store_request encrypt this a
                   = store_request encrypt this (set_policy a (Some (delete k p)))).
    { unfold store_request. cbn [file policy userId userToken set_policy].
      rewrite Hp, Hsame. reflexivity. }
    split; [exact Hlook|]. split; [exact Hreq|].
    unfold store. rewrite Hreq. reflexivity. }
  split; [exact Hold|].
  destruct Hold as (Hlook & Hreq & Hstore).
  intros f Hf.
  destruct (store_request_file encrypt this a f Hf) as (req & Hr & _ & Hout).
  exists req, (store_policy this (policy a)).
  split; [exact Hr|]. split; [rewrite <- Hreq; exact Hr|].
  split; [exact Hout|]. split; [rewrite Hp; exact Hlook|].
  split.
  - apply store_calls_transport. exact Hr.
  - apply store_calls_transport. rewrite <- Hreq. exact Hr.
Qed.

Lemma store_policy_falsy_as_absent_witness :
  let p : gmap string value := {[ "max_size" := VNum 0; "expires" := VNum 7 ]} in
  let a := set_policy sample_store_args (Some p) in
  exists req out,
    store_request sample_encrypt sample_client a = Return req
    /\ store_request sample_encrypt sample_client
         (set_policy a (Some (delete "max_size" p))) = Return req
    /\ outgoing_policy req = Some out
    /\ out !! "max_size" = Some (maxSize sample_client)
    /\ store sample_encrypt (reply (VObj with_fingerprint)) sample_client a sample_logger
       = Return (then_ (reply (VObj with_fingerprint) req sample_logger) store_check)
    /\ store sample_encrypt (reply (VObj with_fingerprint)) sample_client
         (set_policy a (Some (delete "max_size" p))) sample_logger
       = Return (then_ (reply (VObj with_fingerprint) req sample_logger) store_check).
Proof.
  intros p a.
  refine (proj2 (store_policy_falsy_as_absent sample_encrypt
                   (reply (VObj with_fingerprint))
                   sample_client a sample_logger p "max_size" (VNum 0) _ _ _ _)
            (FileString (js "hello")) _);
    [reflexivity | left; reflexivity | reflexivity | reflexivity | reflexivity].
Defined.

(** ** [fetch] *)

(** [fetch] on a response whose [file] is a string: the string is read as
    base64 and the bytes are read as UTF-8. *)
Lemma fetch_file_string
    (encrypt : value -> value -> value)
    (sendGet : request -> value -> promise value)
    (from_object : value -> completion (list byte))
    (this : client) (a : args) (logger : value)
    (json : gmap string value) (f : jsstring) :
  sendGet (fetch_request encrypt this a) logger = Fulfilled (VObj json) ->
  json !! "file" = Some (VStr f) ->
  fetch encrypt sendGet from_object this a logger
  = Fulfilled (VStr (Utf8.decode (Base64.decode f))).
Proof.
  intros Hget Hfile. unfold fetch. rewrite Hget.
  unfold then_, field, own, bind. rewrite Hfile. reflexivity.
Qed.

(** C6 as stated fails for a string with a surrogate on its own: its
    base64 encoding is "77+9", the encoding of U+FFFD, and that is what
    [fetch] resolves to. *)
Lemma fetch_lone_surrogate_counterexample :
  base64 [0xD800] = js "77+9"
  /\ fetch sample_encrypt (reply (VObj {[ "file" := VStr (base64 [0xD800]) ]}))
       no_array_like sample_client sample_fetch_args sample_logger
     = Fulfilled (VStr [0xFFFD])
  /\ Fulfilled (VStr [0xFFFD]) <> Fulfilled (VStr [0xD800]).
Proof. split; [reflexivity|]. split; [reflexivity|discriminate]. Qed.

(** C6, amended.  When the transport resolves with a mapping whose [file]
    is the base64 encoding of a string without unpaired surrogates,
    [fetch] resolves to that string. *)
Theorem fetch_decodes_file
    (encrypt : value -> value -> value)
    (sendGet : request -> value -> promise value)
    (from_object : value -> completion (list byte))
    (this : client) (a : args) (logger : value)
    (json : gmap string value) (s : jsstring) :
  sendGet (fetch_request encrypt this a) logger = Fulfilled (VObj json) ->
  json !! "file" = Some (VStr (base64 s)) ->
  Utf8.well_formed s = true ->
  fetch encrypt sendGet from_object this a logger = Fulfilled (VStr s).
Proof.
  intros Hget Hfile Hwf.
  rewrite (fetch_file_string _ _ _ _ _ _ _ _ Hget Hfile).
  unfold base64. rewrite b64_decode_encode, utf8_decode_encode by exact Hwf.
  reflexivity.
Qed.

Lemma fetch_decodes_file_witness :
  fetch sample_encrypt (reply (VObj {[ "file" := VStr (base64 (js "hello")) ]}))
    no_array_like sample_client sample_fetch_args sample_logger
  = Fulfilled (VStr (js "hello")).
Proof.
  apply (fetch_decodes_file sample_encrypt
           (reply (VObj {[ "file" := VStr (base64 (js "hello")) ]}))
           no_array_like sample_client sample_fetch_args sample_logger
           {[ "file" := VStr (base64 (js "hello")) ]} (js "hello"));
    reflexivity.
Defined.

(** C10.  Let [store] be given the bytes [b] and let the transport of
    [fetch] resolve with the [file] that [store] handed over.  Then [fetch]
    resolves to the UTF-8 reading of [b], and writing that string back as
    bytes gives [b] exactly when [b] is well-formed UTF-8.  The single byte
    FF is not well-formed: stored and fetched it reads as U+FFFD, whose
    bytes are not FF. *)
Theorem fetch_after_store_utf8 :
  (forall (encrypt : value -> value -> value)
          (sendGet : request -> value -> promise value)
          (from_object : value -> completion (list byte))
          (this : client) (a a' : args) (logger : value)
          (b : list byte) (req : request) (json : gmap string value),
      file a = Some (FileBuffer b) ->
      store_request encrypt this a = Return req ->
      json !! "file" = payload req !! "file" ->
      sendGet (fetch_request encrypt this a') logger = Fulfilled (VObj json) ->
      fetch encrypt sendGet from_object this a' logger
      = Fulfilled (VStr (Utf8.decode b))
      /\ (Utf8.encode (Utf8.decode b) = b <-> Utf8.valid b = true))
  /\ (let b := [byte_of_Z 0xFF] in
      Utf8.valid b = false
      /\ fetch sample_encrypt
           (reply (VObj {[ "file" := VStr (store_file (FileBuffer b)) ]}))
           no_array_like sample_client sample_fetch_args sample_logger
         = Fulfilled (VStr [0xFFFD])
      /\ Utf8.encode [0xFFFD] <> b).
Proof.
  split.
  - intros encrypt sendGet from_object this a a' logger b req json Hf Hreq Hfile Hget.
    destruct (store_request_file encrypt this a _ Hf) as (req' & Hreq' & Hpay & _).
    assert (req' = req) as -> by congruence.
    rewrite Hpay in Hfile. cbn [store_file] in Hfile.
    rewrite (fetch_file_string _ _ _ _ _ _ _ _ Hget Hfile), b64_decode_encode.
    split; [reflexivity | apply utf8_roundtrip_iff].
  - split; [reflexivity|]. split; [reflexivity|]. vm_compute. discriminate.
Qed.

Lemma fetch_after_store_utf8_witness :
  let a := set_file sample_path_args (FileBuffer (bytes "hello")) in
  let stored : gmap string value := {[ "file" := VStr (js "aGVsbG8=") ]} in
  fetch sample_encrypt (reply (VObj stored)) no_array_like sample_client
    sample_fetch_args sample_logger
  = Fulfilled (VStr (Utf8.decode (bytes "hello")))
  /\ (Utf8.encode (Utf8.decode (bytes "hello")) = bytes "hello"
      <-> Utf8.valid (bytes "hello") = true).
Proof.
  intros a stored.
  destruct (store_request sample_encrypt sample_client a) as [req|e] eqn:E;
    [|discriminate E].
  apply (proj1 fetch_after_store_utf8 sample_encrypt (reply (VObj stored))
           no_array_like sample_client a sample_fetch_args sample_logger
           (bytes "hello") req stored eq_refl E).
  - injection E as <-. reflexivity.
  - reflexivity.
Defined.

(** ** [store]: failures, and what a resolved call guarantees *)

(** X1.  A failure of the transport is the outcome of [store]: when
    [sendPost] rejects, [store] rejects with the same error, and when it
    never settles neither does [store]. *)
Theorem store_transport_failure
    (encrypt : value -> value -> value)
    (sendPost : request -> value -> promise value)
    (this : client) (a : args) (logger : value) (req : request) :
  store_request encrypt this a = Return req ->
  (forall e, sendPost req logger = Rejected e ->
             store encrypt sendPost this a logger = Return (Rejected e))
  /\ (sendPost req logger = Pending ->
      store encrypt sendPost this a logger = Return Pending).
Proof.
  intros Hreq. unfold store. rewrite Hreq. cbn [bind].
  split; [intros e He | intros He]; rewrite He; reflexivity.
Qed.

Lemma store_transport_failure_witness :
  store sample_encrypt (refuse unauthorized) sample_client sample_store_args sample_logger
  = Return (Rejected unauthorized)
  /\ store sample_encrypt silent sample_client sample_store_args sample_logger
     = Return Pending.
Proof.
  destruct (store_request sample_encrypt sample_client sample_store_args)
    as [req|e] eqn:E; [|discriminate E].
  split.
  - apply (proj1 (store_transport_failure sample_encrypt (refuse unauthorized)
                    sample_client sample_store_args sample_logger req E)).
    reflexivity.
  - apply (proj2 (store_transport_failure sample_encrypt silent
                    sample_client sample_store_args sample_logger req E)).
    reflexivity.
Defined.

(** X2.  Whenever [store] resolves, the value is the one the transport
    resolved with and its [fingerprint] is truthy. *)
Theorem store_resolved_has_fingerprint
    (encrypt : value -> value -> value)
    (sendPost : request -> value -> promise value)
    (this : client) (a : args) (logger : value) (v : value) :
  store encrypt sendPost this a logger = Return (Fulfilled v) ->
  exists req fp,
    store_request encrypt this a = Return req
    /\ sendPost req logger = Fulfilled v
    /\ field v "fingerprint" = Return fp
    /\ truthy fp = true.
Proof.
  unfold store. destruct (store_request encrypt this a) as [req|e]; [|discriminate].
  cbn [bind]. intros H. injection H as H.
  destruct (sendPost req logger) as [result| |] eqn:Hpost; [|discriminate|discriminate].
  unfold then_, store_check in H.
  destruct (field result "fingerprint") as [fp|] eqn:Hfp; [|discriminate].
  cbn [bind] in H. destruct (truthy fp) eqn:Ht; [|discriminate].
  cbn in H. injection H as <-. exists req, fp.
  repeat split; reflexivity || assumption.
Qed.

Lemma store_resolved_has_fingerprint_witness :
  exists req fp,
    store_request sample_encrypt sample_client sample_store_args = Return req
    /\ reply (VObj with_fingerprint) req sample_logger = Fulfilled (VObj with_fingerprint)
    /\ field (VObj with_fingerprint) "fingerprint" = Return fp
    /\ truthy fp = true.
Proof.
  apply (store_resolved_has_fingerprint sample_encrypt (reply (VObj with_fingerprint))
           sample_client sample_store_args sample_logger (VObj with_fingerprint)).
  reflexivity.
Defined.

(** X3.  [store] throws before any promise exists exactly when no file is
    given, and what it throws is a [TypeError]; with a file it returns a
    promise. *)
Theorem store_needs_file
    (encrypt : value -> value -> value)
    (sendPost : request -> value -> promise value)
    (this : client) (a : args) (logger : value) :
  (file a = None -> store encrypt sendPost this a logger = Throw TypeError)
  /\ (forall e, store encrypt sendPost this a logger = Throw e ->
                file a = None /\ e = TypeError)
  /\ (forall f, file a = Some f ->
                exists p, store encrypt sendPost this a logger = Return p).
Proof.
  unfold store, store_request. destruct (file a) as [f|]; cbn [bind].
  - split; [discriminate|]. split; [discriminate|]. intros ? _. eauto.
  - split; [reflexivity|]. split; [|discriminate].
    intros e H. injection H as <-. auto.
Qed.

Lemma store_needs_file_witness :
  store sample_encrypt (reply (VObj with_fingerprint)) sample_client sample_path_args
    sample_logger
  = Throw TypeError.
Proof.
  apply (proj1 (store_needs_file sample_encrypt (reply (VObj with_fingerprint))
                  sample_client sample_path_args sample_logger)).
  reflexivity.
Defined.

(** X4.  When the transport resolves, [store] rejects with a [TypeError]
    exactly when the result is [undefined] or [null]: the fingerprint
    cannot be read, and the error is not ENOFINGERPRINT. *)
Theorem store_nullish_result
    (encrypt : value -> value -> value)
    (sendPost : request -> value -> promise value)
    (this : client) (a : args) (logger : value) (req : request) (result : value) :
  store_request encrypt this a = Return req ->
  sendPost req logger = Fulfilled result ->
  store encrypt sendPost this a logger = Return (Rejected TypeError)
  <-> result = VUndefined \/ result = VNull.
Proof.
  intros Hreq Hpost. rewrite (store_calls_transport _ _ _ _ _ _ Hreq), Hpost.
  unfold then_, store_check.
  destruct result as [ | | b | n | | s | b | xs | o ]; cbn [field bind];
    try (split; [intros H; discriminate H | intros [H|H]; discriminate H]);
    try (split; [auto | reflexivity]).
  destruct (truthy (own o "fingerprint")); cbn;
    (split; [intros H; discriminate H | intros [H|H]; discriminate H]).
Qed.

Lemma store_nullish_result_witness :
  store sample_encrypt (reply VNull) sample_client sample_store_args sample_logger
  = Return (Rejected TypeError).
Proof.
  destruct (store_request sample_encrypt sample_client sample_store_args)
    as [req|e] eqn:E; [|discriminate E].
  refine (proj2 (store_nullish_result sample_encrypt (reply VNull)
                   sample_client sample_store_args sample_logger req VNull E _) _).
  - reflexivity.
  - right. reflexivity.
Defined.

(** ** The constructor and the policy together *)

Lemma or_else_truthy (a b : value) : truthy b = true -> truthy (or_else a b) = true.
Proof. intros Hb. unfold or_else. destruct (truthy a) eqn:Ha; assumption. Qed.

(** X5.  The [expires] of an instance: 28 when the options carry none or
    a falsy one, the supplied value itself when that is truthy. *)
Theorem constructor_expires
    (secret token slug baseUrl : value) (options : option (gmap string value))
    (this : client) :
  constructor secret token slug baseUrl options = Return this ->
  (truthy (own (default ∅ options) "expires") = false -> expires this = VNum 28)
  /\ (forall v, default ∅ options !! "expires" = Some v -> truthy v = true ->
                expires this = v).
Proof.
  unfold constructor.
  destruct (FBJWTClient secret token slug baseUrl) as [[[[s1 s2] s3] s4]|e];
    [|discriminate].
  cbn [bind]. intros H. injection H as <-. cbn [expires]. unfold or_else. split.
  - intros ->. reflexivity.
  - intros v Hv Ht. unfold own. rewrite Hv. simpl. rewrite Ht. reflexivity.
Qed.

Lemma constructor_expires_witness :
  (truthy (own (default ∅ (Some {[ "expires" := VNum 0 ]})) "expires") = false ->
   expires sample_client = VNum 28)
  /\ (forall v,
        default ∅ (Some ({[ "expires" := VNum 0 ]} : gmap string value)) !! "expires"
        = Some v ->
        truthy v = true -> expires sample_client = v).
Proof.
  apply (constructor_expires (VStr (js "testServiceSecret"))
           (VStr (js "testServiceToken")) (VStr (js "testServiceSlug"))
           (VStr (js "http://localhost:8080")) (Some {[ "expires" := VNum 0 ]})
           sample_client).
  reflexivity.
Defined.

(** X6.  The constructor reads nothing from the options but [maxSize] and
    [expires]: two option objects that agree on these two, or no options
    at all and an object without them, build the same instance. *)
Theorem constructor_reads_two_options
    (secret token slug baseUrl : value) (options options' : option (gmap string value)) :
  own (default ∅ options) "maxSize" = own (default ∅ options') "maxSize" ->
  own (default ∅ options) "expires" = own (default ∅ options') "expires" ->
  constructor secret token slug baseUrl options
  = constructor secret token slug baseUrl options'.
Proof.
  intros Hm He. unfold constructor.
  destruct (FBJWTClient secret token slug baseUrl) as [[[[s1 s2] s3] s4]|e];
    [|reflexivity].
  cbn [bind]. rewrite Hm, He. reflexivity.
Qed.

Lemma constructor_reads_two_options_witness :
  constructor (VStr (js "testServiceSecret")) (VStr (js "testServiceToken"))
    (VStr (js "testServiceSlug")) (VStr (js "http://localhost:8080")) None
  = constructor (VStr (js "testServiceSecret")) (VStr (js "testServiceToken"))
      (VStr (js "testServiceSlug")) (VStr (js "http://localhost:8080"))
      (Some {[ "timeout" := VNum 30 ]}).
Proof.
  apply (constructor_reads_two_options _ _ _ _ None (Some {[ "timeout" := VNum 30 ]}));
    reflexivity.
Defined.

Lemma store_policy_own (this : client) (pol : option (gmap string value)) (k : string) :
  own (store_policy this pol) k =
  if decide (k = "allowed_types") then
    if empty_sequence (own (default ∅ pol) "allowed_types") then VUndefined
    else own (default ∅ pol) k
  else if decide (k = "max_size") then
    if truthy (own (default ∅ pol) "max_size") then own (default ∅ pol) k
    else maxSize this
  else if decide (k = "expires") then
    if truthy (own (default ∅ pol) "expires") then own (default ∅ pol) k
    else expires this
  else own (default ∅ pol) k.
Proof.
  unfold own at 1. rewrite store_policy_lookup. unfold own.
  repeat case_decide;
    repeat match goal with |- context [if ?b then _ else _] => destruct b end;
    reflexivity.
Qed.

(** The policy lines under an instance that the constructor built. *)
Lemma constructed_policy_lines
    (secret token slug baseUrl : value) (options : option (gmap string value))
    (this : client) (pol : option (gmap string value)) :
  constructor secret token slug baseUrl options = Return this ->
  truthy (maxSize this) = true
  /\ truthy (expires this) = true
  /\ truthy (own (store_policy this pol) "max_size") = true
  /\ truthy (own (store_policy this pol) "expires") = true.
Proof.
  unfold constructor.
  destruct (FBJWTClient secret token slug baseUrl) as [[[[s1 s2] s3] s4]|e];
    [|discriminate].
  cbn [bind]. intros H. injection H as <-. cbn [maxSize expires].
  assert (Hm : truthy (or_else (own (default ∅ options) "maxSize") defaultMaxSize) = true)
    by (apply or_else_truthy; reflexivity).
  assert (He : truthy (or_else (own (default ∅ options) "expires") defaultExpires) = true)
    by (apply or_else_truthy; reflexivity).
  split; [exact Hm|]. split; [exact He|].
  rewrite !store_policy_own. cbn [maxSize expires].
  rewrite (decide_False (P := "max_size" = "allowed_types")) by done.
  rewrite (decide_True (P := "max_size" = "max_size")) by done.
  rewrite (decide_False (P := "expires" = "allowed_types")) by done.
  rewrite (decide_False (P := "expires" = "max_size")) by done.
  rewrite (decide_True (P := "expires" = "expires")) by done.
  split.
  - destruct (truthy (own (default ∅ pol) "max_size")) eqn:E; [exact E | exact Hm].
  - destruct (truthy (own (default ∅ pol) "expires")) eqn:E; [exact E | exact He].
Qed.

(** X7.  An instance that the constructor built never has a falsy
    [maxSize] or [expires], so the policy that [store] hands over always
    carries a truthy [max_size] and a truthy [expires], whatever policy the
    caller supplied: this holds of the policy lines, and of the policy in
    the request of every call that has a file. *)
Theorem constructed_policy_bounded
    (secret token slug baseUrl : value) (options : option (gmap string value))
    (this : client) :
  constructor secret token slug baseUrl options = Return this ->
  (forall pol : option (gmap string value),
      truthy (maxSize this) = true
      /\ truthy (expires this) = true
      /\ truthy (own (store_policy this pol) "max_size") = true
      /\ truthy (own (store_policy this pol) "expires") = true)
  /\ (forall (encrypt : value -> value -> value) (a : args) (f : file_content),
        file a = Some f ->
        exists req out,
          store_request encrypt this a = Return req
          /\ outgoing_policy req = Some out
          /\ truthy (own out "max_size") = true
          /\ truthy (own out "expires") = true).
Proof.
  intros Hc. split.
  - intros pol. exact (constructed_policy_lines _ _ _ _ _ _ pol Hc).
  - intros encrypt a f Hf.
    destruct (store_request_file encrypt this a f Hf) as (req & Hreq & _ & Hout).
    exists req, (store_policy this (policy a)).
    split; [exact Hreq|]. split; [exact Hout|].
    apply (constructed_policy_lines _ _ _ _ _ _ (policy a) Hc).
Qed.

Lemma constructed_policy_bounded_witness :
  let a := set_policy sample_store_args (Some {[ "max_size" := VNull ]}) in
  exists req out,
    store_request sample_encrypt sample_client a = Return req
    /\ outgoing_policy req = Some out
    /\ truthy (own out "max_size") = true
    /\ truthy (own out "expires") = true.
Proof.
  intros a.
  refine (proj2 (constructed_policy_bounded (VStr (js "testServiceSecret"))
                   (VStr (js "testServiceToken")) (VStr (js "testServiceSlug"))
                   (VStr (js "http://localhost:8080")) None sample_client _)
            sample_encrypt a (FileString (js "hello")) _); reflexivity.
Defined.

(** The policy lines applied twice. *)
Lemma store_policy_lines_idempotent (this : client) (pol : option (gmap string value)) :
  store_policy this (Some (store_policy this pol)) = store_policy this pol.
Proof.
  apply map_eq. intros k.
  rewrite (store_policy_lookup this (Some _)). cbn [default from_option id].
  rewrite !store_policy_own.
  rewrite (decide_True (P := "allowed_types" = "allowed_types")) by done.
  rewrite (decide_False (P := "max_size" = "allowed_types")) by done.
  rewrite (decide_True (P := "max_size" = "max_size")) by done.
  rewrite (decide_False (P := "expires" = "allowed_types")) by done.
  rewrite (decide_False (P := "expires" = "max_size")) by done.
  rewrite (decide_True (P := "expires" = "expires")) by done.
  rewrite store_policy_lookup.
  destruct (empty_sequence (own (default ∅ pol) "allowed_types")) eqn:E1;
    destruct (truthy (own (default ∅ pol) "max_size")) eqn:E2;
    destruct (truthy (own (default ∅ pol) "expires")) eqn:E3;
    rewrite ?E1, ?E2, ?E3; cbn [empty_sequence];
    repeat case_decide; subst; try done;
    repeat match goal with
           | |- context [if ?b then _ else _] => destruct b
           end; reflexivity.
Qed.

(** X8.  Handing [store] a policy that already went through it changes
    nothing: the policy lines are idempotent, and a call that has a file
    and is repeated with the policy of its own request gives that same
    request. *)
Theorem store_policy_idempotent (this : client) :
  (forall pol : option (gmap string value),
      store_policy this (Some (store_policy this pol)) = store_policy this pol)
  /\ (forall (encrypt : value -> value -> value) (a : args) (f : file_content),
        file a = Some f ->
        exists req out,
          store_request encrypt this a = Return req
          /\ outgoing_policy req = Some out
          /\ store_request encrypt this (set_policy a (Some out)) = Return req).
Proof.
  split.
  - intros pol. apply store_policy_lines_idempotent.
  - intros encrypt a f Hf.
    destruct (store_request_file encrypt this a f Hf) as (req & Hreq & _ & Hout).
    exists req, (store_policy this (policy a)).
    split; [exact Hreq|]. split; [exact Hout|].
    rewrite <- Hreq. unfold store_request.
    cbn [file policy userId userToken set_policy].
    rewrite store_policy_lines_idempotent. reflexivity.
Qed.

Lemma store_policy_idempotent_witness :
  let a := set_policy sample_store_args (Some {[ "allowed_types" := VArr [] ]}) in
  exists req out,
    store_request sample_encrypt sample_client a = Return req
    /\ outgoing_policy req = Some out
    /\ store_request sample_encrypt sample_client (set_policy a (Some out)) = Return req.
Proof.
  intros a.
  refine (proj2 (store_policy_idempotent sample_client)
            sample_encrypt a (FileString (js "hello")) _); reflexivity.
Defined.

(** The keys that the policy lines add and remove. *)
Lemma store_policy_lines_keys (this : client) (pol : option (gmap string value)) :
  dom (store_policy this pol) ⊆ dom (default ∅ pol) ∪ {[ "max_size"; "expires" ]}
  /\ dom (default ∅ pol) ∖ {[ "allowed_types" ]} ⊆ dom (store_policy this pol)
  /\ {[ "max_size"; "expires" ]} ⊆ dom (store_policy this pol).
Proof.
  split; [|split]; intros k.
  - rewrite elem_of_union, !elem_of_dom.
    destruct (decide (k = "max_size")) as [->|N1]; [intros _; right; set_solver|].
    destruct (decide (k = "expires")) as [->|N2]; [intros _; right; set_solver|].
    rewrite store_policy_lookup.
    rewrite (decide_False (P := k = "max_size")) by exact N1.
    rewrite (decide_False (P := k = "expires")) by exact N2.
    intros Hs. left. revert Hs.
    destruct (decide (k = "allowed_types")); [|tauto].
    destruct (empty_sequence (own (default ∅ pol) "allowed_types")); [|tauto].
    intros Hs. by destruct Hs.
  - rewrite elem_of_difference, !elem_of_dom, store_policy_lookup.
    intros [Hs Hk].
    rewrite (decide_False (P := k = "allowed_types")) by set_solver.
    destruct (decide (k = "max_size")) as [->|N1].
    { destruct (truthy (own (default ∅ pol) "max_size")); eauto. }
    destruct (decide (k = "expires")) as [->|N2]; [|exact Hs].
    destruct (truthy (own (default ∅ pol) "expires")); eauto.
  - rewrite elem_of_dom, store_policy_lookup.
    intros Hk. assert (k = "max_size" \/ k = "expires") as [-> | ->] by set_solver.
    + rewrite decide_False, decide_True by done.
      destruct (truthy (own (default ∅ pol) "max_size")) eqn:E; [|eauto].
      unfold own in E. destruct (default ∅ pol !! "max_size"); [eauto|discriminate].
    + rewrite decide_False, decide_False, decide_True by done.
      destruct (truthy (own (default ∅ pol) "expires")) eqn:E; [|eauto].
      unfold own in E. destruct (default ∅ pol !! "expires"); [eauto|discriminate].
Qed.

(** X9.  The policy lines add no key but [max_size] and [expires] and
    remove no key but [allowed_types]; so does the policy in the request of
    every call that has a file, against the policy the caller supplied. *)
Theorem store_policy_keys (this : client) :
  (forall pol : option (gmap string value),
      dom (store_policy this pol) ⊆ dom (default ∅ pol) ∪ {[ "max_size"; "expires" ]}
      /\ dom (default ∅ pol) ∖ {[ "allowed_types" ]} ⊆ dom (store_policy this pol)
      /\ {[ "max_size"; "expires" ]} ⊆ dom (store_policy this pol))
  /\ (forall (encrypt : value -> value -> value) (a : args) (f : file_content),
        file a = Some f ->
        exists req out,
          store_request encrypt this a = Return req
          /\ outgoing_policy req = Some out
          /\ dom out ⊆ dom (supplied a) ∪ {[ "max_size"; "expires" ]}
          /\ dom (supplied a) ∖ {[ "allowed_types" ]} ⊆ dom out
          /\ {[ "max_size"; "expires" ]} ⊆ dom out).
Proof.
  split.
  - intros pol. apply store_policy_lines_keys.
  - intros encrypt a f Hf.
    destruct (store_request_file encrypt this a f Hf) as (req & Hreq & _ & Hout).
    exists req, (store_policy this (policy a)).
    split; [exact Hreq|]. split; [exact Hout|].
    apply (store_policy_lines_keys this (policy a)).
Qed.

Lemma store_policy_keys_witness :
  let a := set_policy sample_store_args
             (Some {[ "allowed_types" := VArr []; "note" := VStr (js "n") ]}) in
  exists req out,
    store_request sample_encrypt sample_client a = Return req
    /\ outgoing_policy req = Some out
    /\ dom out ⊆ dom (supplied a) ∪ {[ "max_size"; "expires" ]}
    /\ dom (supplied a) ∖ {[ "allowed_types" ]} ⊆ dom out
    /\ {[ "max_size"; "expires" ]} ⊆ dom out.
Proof.
  intros a.
  refine (proj2 (store_policy_keys sample_client)
            sample_encrypt a (FileString (js "hello")) _); reflexivity.
Defined.

(** X10.  Each instance encrypts with its own [encryptUserIdAndToken].
    Apart from that ciphertext, the requests use of the instance the
    service slug and the two defaults only: two instances that agree on
    these send the same URL pattern, the same context and the same payload
    fields other than [encrypted_user_id_and_token], whatever their
    secret, token and base URL are. *)
Theorem requests_use_slug_and_defaults
    (encrypt encrypt' : value -> value -> value) (this this' : client) (a : args)
    (f : file_content) :
  serviceSlug this = serviceSlug this' ->
  maxSize this = maxSize this' ->
  expires this = expires this' ->
  file a = Some f ->
  (exists req req',
     store_request encrypt this a = Return req
     /\ store_request encrypt' this' a = Return req'
     /\ url req = url req'
     /\ context req = context req'
     /\ payload req !! "encrypted_user_id_and_token"
        = Some (encrypt (userId a) (userToken a))
     /\ payload req' !! "encrypted_user_id_and_token"
        = Some (encrypt' (userId a) (userToken a))
     /\ forall k, k <> "encrypted_user_id_and_token" ->
                  payload req !! k = payload req' !! k)
  /\ url (fetch_request encrypt this a) = url (fetch_request encrypt' this' a)
  /\ context (fetch_request encrypt this a) = context (fetch_request encrypt' this' a)
  /\ payload (fetch_request encrypt this a)
     = {[ "encrypted_user_id_and_token" := encrypt (userId a) (userToken a) ]}
  /\ payload (fetch_request encrypt' this' a)
     = {[ "encrypted_user_id_and_token" := encrypt' (userId a) (userToken a) ]}.
Proof.
  intros Hs Hm He Hf.
  assert (Hp : forall pol, store_policy this pol = store_policy this' pol).
  { intros pol. unfold store_policy. rewrite Hm, He. reflexivity. }
  split.
  - unfold store_request. rewrite Hf. eexists. eexists.
    split; [reflexivity|]. split; [reflexivity|]. cbn [url context payload].
    split; [reflexivity|]. split; [rewrite Hs; reflexivity|].
    split; [by simplify_map_eq|]. split; [by simplify_map_eq|].
    intros k Hk. rewrite Hp.
    rewrite !lookup_insert. repeat case_decide; done || congruence.
  - unfold fetch_request. cbn [url context payload]. rewrite Hs.
    repeat split; reflexivity.
Qed.

Lemma requests_use_slug_and_defaults_witness :
  let other :=
    {| serviceSecret := VStr (js "otherSecret");
       serviceToken := VStr (js "otherToken");
       serviceSlug := VStr (js "testServiceSlug");
       serviceUrl := VStr (js "https://userfilestore");
       maxSize := defaultMaxSize;
       expires := defaultExpires |} in
  let other_encrypt (userId userToken : value) := VStr (js "other ciphertext") in
  exists req req',
    store_request sample_encrypt sample_client sample_store_args = Return req
    /\ store_request other_encrypt other sample_store_args = Return req'
    /\ url req = url req'
    /\ context req = context req'
    /\ payload req !! "encrypted_user_id_and_token"
       = Some (sample_encrypt (userId sample_store_args) (userToken sample_store_args))
    /\ payload req' !! "encrypted_user_id_and_token"
       = Some (other_encrypt (userId sample_store_args) (userToken sample_store_args))
    /\ forall k, k <> "encrypted_user_id_and_token" ->
                 payload req !! k = payload req' !! k.
Proof.
  intros other other_encrypt.
  refine (proj1 (requests_use_slug_and_defaults sample_encrypt other_encrypt
                   sample_client other sample_store_args (FileString (js "hello"))
                   _ _ _ _)); reflexivity.
Defined.

(** ** [fetch]: failures and the shape of the result *)

(** X11.  A failure of the transport is the outcome of [fetch]: when
    [sendGet] rejects, [fetch] rejects with the same error, and when it
    never settles neither does [fetch]. *)
Theorem fetch_transport_failure
    (encrypt : value -> value -> value)
    (sendGet : request -> value -> promise value)
    (from_object : value -> completion (list byte))
    (this : client) (a : args) (logger : value) :
  (forall e, sendGet (fetch_request encrypt this a) logger = Rejected e ->
             fetch encrypt sendGet from_object this a logger = Rejected e)
  /\ (sendGet (fetch_request encrypt this a) logger = Pending ->
      fetch encrypt sendGet from_object this a logger = Pending).
Proof.
  unfold fetch. split; [intros e He | intros He]; rewrite He; reflexivity.
Qed.

Lemma fetch_transport_failure_witness :
  fetch sample_encrypt (refuse unauthorized) no_array_like sample_client
    sample_fetch_args sample_logger
  = Rejected unauthorized
  /\ fetch sample_encrypt silent no_array_like sample_client sample_fetch_args
       sample_logger
     = Pending.
Proof.
  split.
  - apply (proj1 (fetch_transport_failure sample_encrypt (refuse unauthorized)
                    no_array_like sample_client sample_fetch_args sample_logger)).
    reflexivity.
  - apply (proj2 (fetch_transport_failure sample_encrypt silent
                    no_array_like sample_client sample_fetch_args sample_logger)).
    reflexivity.
Defined.

(** X12.  A response that carries no usable [file] makes [fetch] reject
    with a [TypeError]: a response that is [undefined] or [null], and a
    mapping whose [file] is missing, [null], a boolean or a number. *)
Theorem fetch_without_file
    (encrypt : value -> value -> value)
    (sendGet : request -> value -> promise value)
    (from_object : value -> completion (list byte))
    (this : client) (a : args) (logger : value) (json : value) :
  sendGet (fetch_request encrypt this a) logger = Fulfilled json ->
  (json = VUndefined \/ json = VNull
   \/ exists o, json = VObj o
                /\ match own o "file" with
                   | VUndefined | VNull | VBool _ | VNum _ | VNaN => True
                   | _ => False
                   end) ->
  fetch encrypt sendGet from_object this a logger = Rejected TypeError.
Proof.
  intros Hget Hjson. unfold fetch. rewrite Hget. unfold then_.
  destruct Hjson as [-> | [-> | (o & -> & Hfile)]]; [reflexivity | reflexivity |].
  cbn [field bind]. destruct (own o "file"); try contradiction; reflexivity.
Qed.

Lemma fetch_without_file_witness :
  fetch sample_encrypt (reply (VObj ∅)) no_array_like sample_client sample_fetch_args
    sample_logger
  = Rejected TypeError.
Proof.
  refine (fetch_without_file sample_encrypt (reply (VObj ∅)) no_array_like
            sample_client sample_fetch_args sample_logger (VObj ∅) _ _).
  - reflexivity.
  - right. right. exists ∅. split; [reflexivity | exact I].
Defined.

(** X13.  Whatever [fetch] resolves with is a string, every unit of which
    is a 16-bit code unit. *)
Theorem fetch_resolves_with_string
    (encrypt : value -> value -> value)
    (sendGet : request -> value -> promise value)
    (from_object : value -> completion (list byte))
    (this : client) (a : args) (logger : value) (v : value) :
  fetch encrypt sendGet from_object this a logger = Fulfilled v ->
  exists s, v = VStr s /\ is_string s = true.
Proof.
  unfold fetch. destruct (sendGet (fetch_request encrypt this a) logger) as [json| |];
    [|discriminate|discriminate].
  unfold then_. destruct (field json "file") as [f|]; [|discriminate].
  cbn [bind]. destruct (Buffer_from_base64 from_object f) as [buf|]; [|discriminate].
  cbn [bind]. intros H. injection H as <-.
  exists (Utf8.decode buf). split; [reflexivity | apply utf8_decode_is_string].
Qed.

Lemma fetch_resolves_with_string_witness :
  exists s, VStr (js "hello") = VStr s /\ is_string s = true.
Proof.
  apply (fetch_resolves_with_string sample_encrypt
           (reply (VObj {[ "file" := VStr (js "aGVsbG8=") ]}))
           no_array_like sample_client sample_fetch_args sample_logger
           (VStr (js "hello"))).
  reflexivity.
Defined.

(** X14.  What [store] sends for a string comes back from [fetch] as that
    string, when the string has no unpaired surrogate and the transport of
    [fetch] resolves with the [file] that [store] handed over. *)
Theorem fetch_after_store_string
    (encrypt : value -> value -> value)
    (sendGet : request -> value -> promise value)
    (from_object : value -> completion (list byte))
    (this : client) (a a' : args) (logger : value)
    (s : jsstring) (req : request) (json : gmap string value) :
  file a = Some (FileString s) ->
  Utf8.well_formed s = true ->
  store_request encrypt this a = Return req ->
  json !! "file" = payload req !! "file" ->
  sendGet (fetch_request encrypt this a') logger = Fulfilled (VObj json) ->
  fetch encrypt sendGet from_object this a' logger = Fulfilled (VStr s).
Proof.
  intros Hf Hwf Hreq Hfile Hget.
  destruct (store_request_file encrypt this a _ Hf) as (req' & Hreq' & Hpay & _).
  assert (req' = req) as -> by congruence.
  rewrite Hpay in Hfile. cbn [store_file] in Hfile.
  rewrite (fetch_file_string _ _ _ _ _ _ _ _ Hget Hfile).
  rewrite b64_decode_encode, utf8_decode_encode by exact Hwf. reflexivity.
Qed.

Lemma fetch_after_store_string_witness :
  fetch sample_encrypt (reply (VObj {[ "file" := VStr (js "aGVsbG8=") ]}))
    no_array_like sample_client sample_fetch_args sample_logger
  = Fulfilled (VStr (js "hello")).
Proof.
  destruct (store_request sample_encrypt sample_client sample_store_args)
    as [req|e] eqn:E; [|discriminate E].
  refine (fetch_after_store_string sample_encrypt
            (reply (VObj {[ "file" := VStr (js "aGVsbG8=") ]}))
            no_array_like sample_client sample_store_args sample_fetch_args
            sample_logger (js "hello") req {[ "file" := VStr (js "aGVsbG8=") ]}
            _ _ E _ _).
  - reflexivity.
  - reflexivity.
  - injection E as <-. reflexivity.
  - reflexivity.
Defined.

(** ** [fetch]: how the [file] of a response may be spelled *)

Lemma b64_sextets_whitespace (f : jsstring) :
  Base64.sextets (filter (fun u => negb (is_whitespace u)) f) = Base64.sextets f.
Proof.
  induction f as [|u f IH]; [reflexivity|].
  destruct (is_whitespace u) eqn:Hw.
  - rewrite filter_cons_False by (rewrite Hw; auto). rewrite IH.
    unfold is_whitespace in Hw.
    apply orb_true_iff in Hw as [Hw|Hw]; [apply orb_true_iff in Hw as [Hw|Hw];
      [apply orb_true_iff in Hw as [Hw|Hw]|]|];
      apply Z.eqb_eq in Hw; subst u; reflexivity.
  - rewrite filter_cons_True by (rewrite Hw; auto).
    cbn [Base64.sextets]. rewrite IH. reflexivity.
Qed.

Lemma b64_unbase64_url_safe (u : Z) :
  Base64.unbase64 (url_safe u) = Base64.unbase64 u
  /\ (Base64.unbase64 u = None -> url_safe u = u).
Proof.
  unfold url_safe.
  destruct (Z.eqb_spec u 43) as [->|N1]; [split; [reflexivity|discriminate]|].
  destruct (Z.eqb_spec u 47) as [->|N2]; [split; [reflexivity|discriminate]|].
  split; reflexivity.
Qed.

Lemma b64_sextets_url_safe (f : jsstring) :
  Base64.sextets (map url_safe f) = Base64.sextets f.
Proof.
  induction f as [|u f IH]; [reflexivity|].
  cbn [map Base64.sextets]. destruct (b64_unbase64_url_safe u) as [E1 E2].
  rewrite E1, IH. destruct (Base64.unbase64 u); [reflexivity|].
  rewrite E2 by reflexivity. reflexivity.
Qed.

(** X15.  [fetch] reads a [file] that is broken into lines, or otherwise
    interspersed with spaces, tabs, line feeds and carriage returns, as it
    reads the same [file] without them. *)
Theorem fetch_ignores_whitespace
    (encrypt : value -> value -> value)
    (sendGet sendGet' : request -> value -> promise value)
    (from_object : value -> completion (list byte))
    (this : client) (a : args) (logger : value)
    (json json' : gmap string value) (f f' : jsstring) :
  sendGet (fetch_request encrypt this a) logger = Fulfilled (VObj json) ->
  sendGet' (fetch_request encrypt this a) logger = Fulfilled (VObj json') ->
  json !! "file" = Some (VStr f) ->
  json' !! "file" = Some (VStr f') ->
  filter (fun u => negb (is_whitespace u)) f' = f ->
  fetch encrypt sendGet' from_object this a logger
  = fetch encrypt sendGet from_object this a logger.
Proof.
  intros Hget Hget' Hf Hf' Hstrip.
  rewrite (fetch_file_string _ _ _ _ _ _ _ _ Hget Hf).
  rewrite (fetch_file_string _ _ _ _ _ _ _ _ Hget' Hf').
  unfold Base64.decode. rewrite <- Hstrip, b64_sextets_whitespace. reflexivity.
Qed.

Lemma fetch_ignores_whitespace_witness :
  fetch sample_encrypt
    (reply (VObj {[ "file" := VStr [100; 71; 86; 122; 10; 100; 69; 90; 112; 13; 10] ]}))
    no_array_like sample_client sample_fetch_args sample_logger
  = fetch sample_encrypt (reply (VObj {[ "file" := VStr (js "dGVzdEZp") ]}))
      no_array_like sample_client sample_fetch_args sample_logger.
Proof.
  refine (fetch_ignores_whitespace sample_encrypt
            (reply (VObj {[ "file" := VStr (js "dGVzdEZp") ]}))
            (reply (VObj {[ "file" := VStr [100; 71; 86; 122; 10; 100; 69; 90; 112; 13; 10] ]}))
            no_array_like sample_client sample_fetch_args sample_logger
            {[ "file" := VStr (js "dGVzdEZp") ]}
            {[ "file" := VStr [100; 71; 86; 122; 10; 100; 69; 90; 112; 13; 10] ]}
            (js "dGVzdEZp") [100; 71; 86; 122; 10; 100; 69; 90; 112; 13; 10]
            _ _ _ _ _); reflexivity.
Defined.

(** X16.  [fetch] reads a [file] written in the URL-safe alphabet, with
    [-] for [+] and [_] for [/], as it reads the standard spelling. *)
Theorem fetch_accepts_url_safe
    (encrypt : value -> value -> value)
    (sendGet sendGet' : request -> value -> promise value)
    (from_object : value -> completion (list byte))
    (this : client) (a : args) (logger : value)
    (json json' : gmap string value) (f : jsstring) :
  sendGet (fetch_request encrypt this a) logger = Fulfilled (VObj json) ->
  sendGet' (fetch_request encrypt this a) logger = Fulfilled (VObj json') ->
  json !! "file" = Some (VStr f) ->
  json' !! "file" = Some (VStr (map url_safe f)) ->
  fetch encrypt sendGet' from_object this a logger
  = fetch encrypt sendGet from_object this a logger.
Proof.
  intros Hget Hget' Hf Hf'.
  rewrite (fetch_file_string _ _ _ _ _ _ _ _ Hget Hf).
  rewrite (fetch_file_string _ _ _ _ _ _ _ _ Hget' Hf').
  unfold Base64.decode. rewrite b64_sextets_url_safe. reflexivity.
Qed.

Lemma fetch_accepts_url_safe_witness :
  fetch sample_encrypt (reply (VObj {[ "file" := VStr (map url_safe (js "77+9")) ]}))
    no_array_like sample_client sample_fetch_args sample_logger
  = fetch sample_encrypt (reply (VObj {[ "file" := VStr (js "77+9") ]}))
      no_array_like sample_client sample_fetch_args sample_logger.
Proof.
  refine (fetch_accepts_url_safe sample_encrypt
            (reply (VObj {[ "file" := VStr (js "77+9") ]}))
            (reply (VObj {[ "file" := VStr (map url_safe (js "77+9")) ]}))
            no_array_like sample_client sample_fetch_args sample_logger
            {[ "file" := VStr (js "77+9") ]}
            {[ "file" := VStr (map url_safe (js "77+9")) ]}
            (js "77+9") _ _ _ _); reflexivity.
Defined.

(** ** The size of what [store] sends *)

Lemma b64_encode_length (b : list byte) :
  length (Base64.encode b) = (4 * ((length b + 2) / 3))%nat.
Proof.
  induction b as [ | x | x y | x y z rest IH ] using list_ind3;
    [reflexivity | reflexivity | reflexivity |].
  cbn [Base64.encode length]. rewrite IH.
  replace (S (S (S (length rest))) + 2)%nat with ((length rest + 2) + 1 * 3)%nat by lia.
  rewrite Nat.div_add by lia. lia.
Qed.

(** X17.  The [file] that [store] sends for a Buffer of [n] bytes is a
    string of [4 * ceil (n / 3)] characters. *)
Theorem store_file_length
    (encrypt : value -> value -> value) (this : client) (a : args) (b : list byte) :
  file a = Some (FileBuffer b) ->
  exists req f,
    store_request encrypt this a = Return req
    /\ payload req !! "file" = Some (VStr f)
    /\ length f = (4 * ((length b + 2) / 3))%nat.
Proof.
  intros Hf. destruct (store_request_file encrypt this a _ Hf) as (req & Hreq & Hfile & _).
  exists req, (Base64.encode b). repeat split; [exact Hreq | exact Hfile |].
  apply b64_encode_length.
Qed.

Lemma store_file_length_witness :
  exists req f,
    store_request sample_encrypt sample_client
      (set_file sample_path_args (FileBuffer (bytes "hello"))) = Return req
    /\ payload req !! "file" = Some (VStr f)
    /\ length f = (4 * ((length (bytes "hello") + 2) / 3))%nat.
Proof.
  apply (store_file_length sample_encrypt sample_client
           (set_file sample_path_args (FileBuffer (bytes "hello"))) (bytes "hello")).
  reflexivity.
Defined.

(** ** [storeFromPath]: a file that cannot be read *)

(** X18.  When the file cannot be read, [storeFromPath] rejects with the
    error of [readFile] as it is, whatever the transport would do; and
    while the read never settles neither does [storeFromPath]. *)
Theorem storeFromPath_read_failure
    (encrypt : value -> value -> value)
    (sendPost : request -> value -> promise value)
    (readFile : value -> promise (list byte))
    (this : client) (filePath : value) (a : args) (logger : value) :
  (forall e, readFile filePath = Rejected e ->
             storeFromPath encrypt sendPost readFile this filePath a logger
             = Rejected e)
  /\ (readFile filePath = Pending ->
      storeFromPath encrypt sendPost readFile this filePath a logger = Pending).
Proof.
  unfold storeFromPath. split; [intros e He | intros He]; rewrite He; reflexivity.
Qed.

Lemma storeFromPath_read_failure_witness :
  storeFromPath sample_encrypt (reply (VObj with_fingerprint))
    (fun _ => Rejected (Foreign (VStr (js "ENOENT"))))
    sample_client (VStr (js "no-such-file")) sample_path_args sample_logger
  = Rejected (Foreign (VStr (js "ENOENT"))).
Proof.
  apply (proj1 (storeFromPath_read_failure sample_encrypt (reply (VObj with_fingerprint))
                  (fun _ => Rejected (Foreign (VStr (js "ENOENT"))))
                  sample_client (VStr (js "no-such-file")) sample_path_args
                  sample_logger)).
  reflexivity.
Defined.

(** ** The positional version beside the args-object version *)

(** X19.  In the positional version [storeFromPath] is [store] on the
    bytes of the file: once the file is read, its promise is the promise
    of [store], resolved or rejected alike. *)
Theorem positional_storeFromPath_follows_store
    (encrypt : value -> value -> value)
    (sendPost : string -> gmap string value -> gmap string value -> promise value)
    (readFile : value -> promise (list byte))
    (this : client) (userId userToken filePath : value)
    (policy : option (gmap string value)) (content : list byte) :
  readFile filePath = Fulfilled content ->
  exists p,
    Positional.store encrypt sendPost this userId userToken
      (Some (FileBuffer content)) policy = Return p
    /\ Positional.storeFromPath encrypt sendPost readFile this userId userToken
         filePath policy = p.
Proof.
  intros Hread. unfold Positional.storeFromPath. rewrite Hread.
  unfold then_promise, Positional.store. eexists. split; reflexivity.
Qed.

Lemma positional_storeFromPath_follows_store_witness :
  exists p,
    Positional.store sample_encrypt (spread (reply (VObj with_fingerprint)) sample_logger)
      sample_client (VStr (js "u")) (VStr (js "t"))
      (Some (FileBuffer (bytes "hello"))) (Some ∅) = Return p
    /\ Positional.storeFromPath sample_encrypt
         (spread (reply (VObj with_fingerprint)) sample_logger)
         (sample_readFile (bytes "hello")) sample_client
         (VStr (js "u")) (VStr (js "t")) (VStr (js "test-data/test-file")) (Some ∅)
       = p.
Proof.
  apply (positional_storeFromPath_follows_store sample_encrypt
           (spread (reply (VObj with_fingerprint)) sample_logger)
           (sample_readFile (bytes "hello")) sample_client
           (VStr (js "u")) (VStr (js "t")) (VStr (js "test-data/test-file")) (Some ∅)
           (bytes "hello")).
  reflexivity.
Defined.

(** X20.  The two versions of [store] and of [fetch] hand the transport
    the same URL pattern, context and payload and treat its answer alike:
    over one transport they have the same outcome, the [TypeError] of
    [store] for a missing file included. *)
Theorem positional_methods_agree
    (encrypt : value -> value -> value)
    (sendGet sendPost : request -> value -> promise value)
    (from_object : value -> completion (list byte))
    (this : client) (a : args) (logger : value) :
  Positional.store encrypt (spread sendPost logger) this
    (userId a) (userToken a) (file a) (policy a)
  = store encrypt sendPost this a logger
  /\ Positional.fetch encrypt (spread_get sendGet logger) from_object this
       (userId a) (userToken a) (fingerprint a)
     = fetch encrypt sendGet from_object this a logger.
Proof.
  split.
  - unfold Positional.store, store, store_request, spread.
    destruct (file a); reflexivity.
  - unfold Positional.fetch, fetch, fetch_request, spread_get. reflexivity.
Qed.

(** X21.  The two versions of the constructor differ in the default of
    [expires] only: they build the same instance when the options carry a
    truthy [expires], and otherwise instances that are equal but for
    [expires], which is the string 28d in the positional version and the
    number 28 in the other. *)
Theorem positional_constructor_differs_in_expires
    (secret token slug baseUrl : value) (options : option (gmap string value)) :
  (truthy (own (default ∅ options) "expires") = true ->
   Positional.constructor secret token slug baseUrl options
   = constructor secret token slug baseUrl options)
  /\ (forall this,
        constructor secret token slug baseUrl options = Return this ->
        truthy (own (default ∅ options) "expires") = false ->
        expires this = VNum 28
        /\ Positional.constructor secret token slug baseUrl options
           = Return {| serviceSecret := serviceSecret this;
                       serviceToken := serviceToken this;
                       serviceSlug := serviceSlug this;
                       serviceUrl := serviceUrl this;
                       maxSize := maxSize this;
                       expires := VStr (js "28d") |}).
Proof.
  unfold Positional.constructor, constructor.
  destruct (FBJWTClient secret token slug baseUrl) as [[[[s1 s2] s3] s4]|e];
    cbn [bind]; unfold or_else.
  - split.
    + intros ->. reflexivity.
    + intros this H Hf. injection H as <-. rewrite Hf. cbn. split; reflexivity.
  - split; [reflexivity | discriminate].
Qed.

Lemma positional_constructor_differs_in_expires_witness :
  Positional.constructor (VStr (js "testServiceSecret")) (VStr (js "testServiceToken"))
    (VStr (js "testServiceSlug")) (VStr (js "http://localhost:8080"))
    (Some {[ "expires" := VNum 7 ]})
  = constructor (VStr (js "testServiceSecret")) (VStr (js "testServiceToken"))
      (VStr (js "testServiceSlug")) (VStr (js "http://localhost:8080"))
      (Some {[ "expires" := VNum 7 ]}).
Proof.
  apply (proj1 (positional_constructor_differs_in_expires _ _ _ _
                  (Some {[ "expires" := VNum 7 ]}))).
  reflexivity.
Defined.

(** X22.  In the args-object version, once the file is read the outcome
    of [storeFromPath] does not depend on the transport: it resolves with
    [undefined] also when [sendPost] rejects or never settles. *)
Theorem storeFromPath_ignores_transport
    (encrypt : value -> value -> value)
    (sendPost sendPost' : request -> value -> promise value)
    (readFile : value -> promise (list byte))
    (this : client) (filePath : value) (a : args) (logger : value)
    (content : list byte) :
  readFile filePath = Fulfilled content ->
  storeFromPath encrypt sendPost readFile this filePath a logger = Fulfilled VUndefined
  /\ storeFromPath encrypt sendPost' readFile this filePath a logger
     = storeFromPath encrypt sendPost readFile this filePath a logger.
Proof.
  intros Hread.
  rewrite !(storeFromPath_fulfilled _ _ _ _ _ _ _ _ Hread). split; reflexivity.
Qed.

Lemma storeFromPath_ignores_transport_witness :
  storeFromPath sample_encrypt (refuse unauthorized) (sample_readFile (bytes "hello"))
    sample_client (VStr (js "test-data/test-file")) sample_path_args sample_logger
  = Fulfilled VUndefined
  /\ storeFromPath sample_encrypt silent (sample_readFile (bytes "hello"))
       sample_client (VStr (js "test-data/test-file")) sample_path_args sample_logger
     = storeFromPath sample_encrypt (refuse unauthorized)
         (sample_readFile (bytes "hello"))
         sample_client (VStr (js "test-data/test-file")) sample_path_args sample_logger.
Proof.
  apply (storeFromPath_ignores_transport sample_encrypt (refuse unauthorized) silent
           (sample_readFile (bytes "hello")) sample_client
           (VStr (js "test-data/test-file")) sample_path_args sample_logger
           (bytes "hello")).
  reflexivity.
Defined.
